(** * go-tdma: the tridiagonal matrix algorithm, verified against its specification

    Shallow embedding of [tdma.go] (package [tdma]): the constructor [New],
    the Thomas-algorithm solver [Matrix.TDMA], and the determinant
    [detF] / [Matrix.Determinant].

    Conventions of the embedding.
    - Go's [int] is [Z].  Every index the code computes is bounded by the
      length of a slice, so no machine-integer wrap-around can occur.
    - A slice is a [list]; an index expression [s[i]] that Go would answer
      with a run-time panic yields [Panic] here.  The slices [m.m] and [r]
      are only ever read by the code; [c], [d] and [x] are local, freshly
      made, and updated in place, which is written as explicit state
      passing.
    - [float64] arithmetic is the interface [Arith]; the program is its
      instance [float64] over Rocq's primitive IEEE-754 binary64 floats,
      each operation rounded on its own, to nearest even.  (Go allows a
      compiler to fuse [x*y - z] into one rounding on some architectures;
      the unfused reading taken here is allowed everywhere.)  The same text
      of the program can be read over an exact field, which is how
      the algebraic content of the algorithm is separated from rounding.
    - The sentinel errors [ErrTDMA] and [ErrInvalidTridiagonalMatrix] are
      exported package variables.  In [New] and [TDMA] an operand [W name]
      records which variable was handed to [fmt.Errorf]; [TDMA_in] is the
      solver once more with the store of the two variables explicit, and
      [TDMA_in_observe] shows that it returns what [TDMA] records, read in
      the store. *)

From Stdlib Require Import ZArith List Lia Bool String.
From Stdlib Require Import PrimFloat FloatAxioms FloatOps SpecFloat QArith Qcanon Field.
Import ListNotations.
Open Scope Z_scope.

Set Implicit Arguments.

(** ** Arithmetic *)

(** The operations of [float64] that the package uses: the constant [0],
    [+] (only in the dense product of the specification), [-], [*], [/]
    and [==]. *)
Class Arith (T : Type) : Type := {
  zero : T;
  add : T -> T -> T;
  sub : T -> T -> T;
  mul : T -> T -> T;
  div : T -> T -> T;
  eqb : T -> T -> bool
}.

(** Go's [float64]. *)
#[global] Instance float64 : Arith float := {
  zero := 0%float;
  add := PrimFloat.add;
  sub := PrimFloat.sub;
  mul := PrimFloat.mul;
  div := PrimFloat.div;
  eqb := PrimFloat.eqb
}.

(** Arithmetic without rounding: the operations form a field and [==] is
    equality. *)
Class Exact {T : Type} (A : Arith T) : Type := {
  one : T;
  opp : T -> T;
  inv : T -> T;
  exact_field : field_theory zero one add mul sub opp div inv (@eq T);
  exact_eqb : forall a b : T, eqb a b = true <-> a = b
}.

(** The rational numbers, as an arithmetic to run the program on. *)
#[global] Instance rational : Arith Qc := {
  zero := Q2Qc 0;
  add := Qcplus;
  sub := Qcminus;
  mul := Qcmult;
  div := Qcdiv;
  eqb := Qc_eq_bool
}.

(** ** Errors *)

(** The two package-level sentinel errors. *)
Inductive sentinel : Type :=
| ErrInvalidTridiagonalMatrix
| ErrTDMA.

(** An operand of [fmt.Errorf]. *)
Inductive operand (T : Type) : Type :=
| W (e : sentinel)      (* consumed by [%w] *)
| D (i : Z)             (* consumed by [%d] *)
| F (v : T).            (* consumed by [%f] *)
Arguments W {T} e.
Arguments D {T} i.
Arguments F {T} v.

(** The value built by [fmt.Errorf(format, operands...)]. *)
Record error (T : Type) : Type := Errorf {
  format : string;
  operands : list (operand T)
}.

(** [errors.Is(e, s)]: the sentinel wrapped through [%w]. *)
Definition Is {T} (e : error T) (s : sentinel) : Prop :=
  In (W s) (operands e).

(** ** Outcomes *)

(** What a call does: it returns a value with a nil error ([Ok]), returns
    nil with an error ([Err]), or panics at run time ([Panic]). *)
Inductive result (T A : Type) : Type :=
| Ok (a : A)
| Err (e : error T)
| Panic.
Arguments Ok {T A} a.
Arguments Err {T A} e.
Arguments Panic {T A}.

Definition bind {T A B} (r : result T A) (k : A -> result T B) : result T B :=
  match r with
  | Ok a => k a
  | Err e => Err e
  | Panic => Panic
  end.

Notation "x <- r ;; k" := (bind r (fun x => k))
  (at level 61, r at next level, right associativity).

(** Sequencing for a computation that may also exhaust its recursion
    budget ([None]). *)
Definition bind_fuel {T A B} (o : option (result T A))
    (k : A -> option (result T B)) : option (result T B) :=
  match o with
  | None => None
  | Some (Ok a) => k a
  | Some (Err e) => Some (Err e)
  | Some Panic => Some Panic
  end.

Notation "x <-? o ;; k" := (bind_fuel o (fun x => k))
  (at level 61, o at next level, right associativity).

(** The pair a Go caller receives, when the call returns at all. *)
Definition returned {T A} (r : result T A) : option (option A * option (error T)) :=
  match r with
  | Ok a => Some (Some a, None)
  | Err e => Some (None, Some e)
  | Panic => None
  end.

(** ** Slices *)

Section Slices.
Context {T : Type} {A : Arith T}.

Definition len (s : list T) : Z := Z.of_nat (List.length s).

(** [make([]float64, k)]: panics for a negative [k]. *)
Definition make (k : Z) : result T (list T) :=
  if k <? 0 then Panic else Ok (repeat zero (Z.to_nat k)).

(** [s[i]] as an operand. *)
Definition index (s : list T) (i : Z) : result T T :=
  if i <? 0 then Panic
  else match nth_error s (Z.to_nat i) with
       | Some v => Ok v
       | None => Panic
       end.

Fixpoint update (s : list T) (k : nat) (v : T) : list T :=
  match s, k with
  | [], _ => []
  | _ :: s', O => v :: s'
  | a :: s', S k' => a :: update s' k' v
  end.

(** [s[i] = v] as a statement. *)
Definition assign (s : list T) (i : Z) (v : T) : result T (list T) :=
  if (i <? 0) || (len s <=? i) then Panic
  else Ok (update s (Z.to_nat i) v).
End Slices.

Notation "s [[ i ]]" := (index s i) (at level 1, format "s [[ i ]]").

(** ** The matrix *)

(** [type Matrix struct { n int; m []float64 }] *)
Record Matrix (T : Type) : Type := mkMatrix {
  n : Z;
  m : list T
}.

Section Program.
Context {T : Type} {A : Arith T}.

(** [func New(d []float64)], returning a pointer to a [Matrix] and an error. *)
Definition New (d : list T) : result T (Matrix T) :=
  if negb (Z.rem (len d) 3 =? 1) then
    Err (Errorf "%w: length %d must 3n-2"
           [W ErrInvalidTridiagonalMatrix; D (len d)])
  else
    Ok {| n := Z.quot (len d - 1) 3 + 1; m := d |}.

(** The representation invariant: [3n - 2] coefficients, [n >= 1]. *)
Definition well_formed (M : Matrix T) : Prop :=
  1 <= n M /\ len (m M) = 3 * n M - 2.

(** [for i := lo; i < hi; i++ { body }] on a loop state [S]: neither [i]
    nor the bound is assigned by any body of the package, so the test
    [i < hi] passes exactly [hi - lo] times (never, when [hi <= lo]).
    A body that returns an error or panics ends the loop. *)
Fixpoint iterate_up {S} (count : nat) (i : Z) (body : Z -> S -> result T S)
    (s : S) : result T S :=
  match count with
  | O => Ok s
  | Datatypes.S count' => s' <- body i s ;; iterate_up count' (i + 1) body s'
  end.

Definition for_up {S} (lo hi : Z) (body : Z -> S -> result T S) (s : S) :=
  iterate_up (Z.to_nat (hi - lo)) lo body s.

(** [for i := hi; 0 <= i; i-- { body }]: [hi + 1] rounds (none when
    [hi < 0]). *)
Fixpoint iterate_down {S} (count : nat) (i : Z) (body : Z -> S -> result T S)
    (s : S) : result T S :=
  match count with
  | O => Ok s
  | Datatypes.S count' => s' <- body i s ;; iterate_down count' (i - 1) body s'
  end.

Definition for_down {S} (hi : Z) (body : Z -> S -> result T S) (s : S) :=
  iterate_down (Z.to_nat (hi + 1)) hi body s.

(** [fmt.Errorf("%w: m[%d] == m[%d]c[%d] == %f", ErrTDMA, i3, i3-1, i-1, m.m[i3])] *)
Definition pivot_error (mm : list T) (i i3 : Z) : result T (list T) :=
  v <- mm[[i3]] ;;
  Err (Errorf "%w: m[%d] == m[%d]c[%d] == %f"
         [W ErrTDMA; D i3; D (i3 - 1); D (i - 1); F v]).

(** The body of the first loop of [TDMA] (lines 73-79); the loop state is
    the slice [c]. *)
Definition eliminate (mm : list T) (i : Z) (c : list T) : result T (list T) :=
  let i3 := i * 3 in
  a <- mm[[i3]] ;; b <- mm[[i3 - 1]] ;; c1 <- c[[i - 1]] ;;
  if eqb a (mul b c1) then
    pivot_error mm i i3
  else
    e <- mm[[i3 + 1]] ;; a <- mm[[i3]] ;; b <- mm[[i3 - 1]] ;; c1 <- c[[i - 1]] ;;
    assign c i (div e (sub a (mul b c1))).

(** The body of the second loop (lines 89-90); the loop state is [d]. *)
Definition substitute (mm r c : list T) (i : Z) (d : list T) : result T (list T) :=
  let i3 := i * 3 in
  ri <- r[[i]] ;; b <- mm[[i3 - 1]] ;; d1 <- d[[i - 1]] ;;
  a <- mm[[i3]] ;; b' <- mm[[i3 - 1]] ;; c1 <- c[[i - 1]] ;;
  assign d i (div (sub ri (mul b d1)) (sub a (mul b' c1))).

(** The body of the third loop (line 95); the loop state is [x]. *)
Definition back_substitute (c d : list T) (i : Z) (x : list T) : result T (list T) :=
  di <- d[[i]] ;; ci <- c[[i]] ;; x1 <- x[[i + 1]] ;;
  assign x i (sub di (mul ci x1)).

(** [func (m *Matrix) TDMA(r []float64) ([]float64, error)] *)
Definition TDMA (M : Matrix T) (r : list T) : result T (list T) :=
  if negb (len r =? n M) then
    Err (Errorf "%w: r must have exactly %d elements" [W ErrTDMA; D (n M)])
  else
    c <- make (n M - 1) ;;
    m0 <- (m M)[[0]] ;;
    if eqb m0 zero then
      Err (Errorf "%w: m[0] is zero" [W ErrTDMA])
    else
      m1 <- (m M)[[1]] ;; m0 <- (m M)[[0]] ;;
      c <- assign c 0 (div m1 m0) ;;
      c <- for_up 1 (n M - 1) (eliminate (m M)) c ;;
      let i := n M - 1 in
      let i3 := (n M - 1) * 3 in
      a <- (m M)[[i3]] ;; b <- (m M)[[i3 - 1]] ;; c1 <- c[[i - 1]] ;;
      if eqb a (mul b c1) then
        pivot_error (m M) i i3
      else
        d <- make (n M) ;;
        r0 <- r[[0]] ;; m0 <- (m M)[[0]] ;;
        d <- assign d 0 (div r0 m0) ;;
        d <- for_up 1 (n M) (substitute (m M) r c) d ;;
        x <- make (n M) ;;
        dn <- d[[n M - 1]] ;;
        x <- assign x (n M - 1) dn ;;
        x <- for_down (n M - 2) (back_substitute c d) x ;;
        Ok x.

(** [func detF(elem []float64, n int) float64].  Go recursion on an [int]
    is not structural; [fuel] bounds the depth of the call stack and [None]
    means that the bound was reached.  In
    [elem[idx]*detF(elem, n-1) - elem[idx-1]*elem[idx-2]*detF(elem, n-2)] Go
    fixes the order of the two calls and leaves open when the index
    expressions are evaluated; the compiled program makes the calls first
    and reads the slice afterwards, and so does the model.  (On a negative
    index the recursion therefore never ends, as in the program, whose
    stack overflows.) *)
Fixpoint detF (fuel : nat) (elem : list T) (k : Z) : option (result T T) :=
  match fuel with
  | O => None
  | Datatypes.S fuel' =>
      if k =? 0 then
        Some (elem[[0]])
      else if k =? 1 then
        Some (e3 <- elem[[3]] ;; e0 <- elem[[0]] ;;
              e2 <- elem[[2]] ;; e1 <- elem[[1]] ;;
              Ok (sub (mul e3 e0) (mul e2 e1)))
      else
        let idx := k * 3 in
        p1 <-? detF fuel' elem (k - 1) ;;
        p2 <-? detF fuel' elem (k - 2) ;;
        a <-? Some (elem[[idx]]) ;;
        b <-? Some (elem[[idx - 1]]) ;;
        e <-? Some (elem[[idx - 2]]) ;;
        Some (Ok (sub (mul a p1) (mul (mul b e) p2)))
  end.

(** [func (m *Matrix) Determinant() float64] *)
Definition Determinant (fuel : nat) (M : Matrix T) : option (result T T) :=
  detF fuel (m M) (n M - 1).
End Program.

(** The test file's comparison [equal], with [eps = 1e-3] (the nearest
    binary64 value, as Go converts the constant). *)
Definition eps : float := 0x1.0624dd2f1a9fcp-10%float.

Fixpoint equal (x y : list float) : bool :=
  match x, y with
  | [], [] => true
  | xe :: x', ye :: y' =>
      if PrimFloat.ltb eps (PrimFloat.abs (PrimFloat.sub ye xe)) then false
      else equal x' y'
  | _, _ => false
  end.

(** Bit-level comparison of two vectors: [Leibniz.eqb] is the primitive
    test that two [float64] hold the same bits (it tells [0] from [-0],
    which [==] does not). *)
Fixpoint same_bits (a b : list float) : bool :=
  match a, b with
  | [], [] => true
  | u :: a', v :: b' => PrimFloat.Leibniz.eqb u v && same_bits a' b'
  | _, _ => false
  end.

(** ** The algorithm as the specification words it *)

Section Specification.
Context {T : Type} {A : Arith T}.
Variable M : Matrix T.

(** The layout: row [i] has its diagonal entry at offset [3i], its
    sub-diagonal entry at [3i - 1] and its super-diagonal entry at
    [3i + 1]. *)
Definition diag (i : nat) : T := nth (3 * i)%nat (m M) zero.
Definition subdiag (i : nat) : T := nth (3 * i - 1)%nat (m M) zero.
Definition superdiag (i : nat) : T := nth (3 * i + 1)%nat (m M) zero.

(** Forward elimination: [c[0] = superdiag(0) / diag(0)],
    [c[i] = superdiag(i) / (diag(i) - subdiag(i) * c[i-1])]. *)
Fixpoint c_spec (i : nat) : T :=
  match i with
  | O => div (superdiag 0) (diag 0)
  | Datatypes.S j =>
      div (superdiag (Datatypes.S j))
          (sub (diag (Datatypes.S j)) (mul (subdiag (Datatypes.S j)) (c_spec j)))
  end.

(** The zero-pivot test at row [i >= 1]: [diag(i) == subdiag(i) * c[i-1]]. *)
Definition collides (i : nat) : bool :=
  eqb (diag i) (mul (subdiag i) (c_spec (i - 1))).

(** The first row among [lo, lo + 1, ..., lo + count - 1] that collides. *)
Fixpoint first_collision (lo count : nat) : option nat :=
  match count with
  | O => None
  | Datatypes.S count' =>
      if collides lo then Some lo else first_collision (Datatypes.S lo) count'
  end.

(** The failure reported for a collision at row [i]. *)
Definition collision_error (i : nat) : error T :=
  Errorf "%w: m[%d] == m[%d]c[%d] == %f"
    [W ErrTDMA; D (Z.of_nat i * 3); D (Z.of_nat i * 3 - 1); D (Z.of_nat i - 1);
     F (diag i)].

Variable r : list T.

(** Forward substitution: [d[0] = r[0] / diag(0)],
    [d[i] = (r[i] - subdiag(i) * d[i-1]) / (diag(i) - subdiag(i) * c[i-1])]. *)
Fixpoint d_spec (i : nat) : T :=
  match i with
  | O => div (nth 0 r zero) (diag 0)
  | Datatypes.S j =>
      div (sub (nth (Datatypes.S j) r zero) (mul (subdiag (Datatypes.S j)) (d_spec j)))
          (sub (diag (Datatypes.S j)) (mul (subdiag (Datatypes.S j)) (c_spec j)))
  end.

(** Back substitution: [x[n-1] = d[n-1]], [x[i] = d[i] - c[i] * x[i+1]];
    [x_back k i] is [x[i]] for the row [i] that has [k] rows below it. *)
Fixpoint x_back (k i : nat) : T :=
  match k with
  | O => d_spec i
  | Datatypes.S k' => sub (d_spec i) (mul (c_spec i) (x_back k' (Datatypes.S i)))
  end.

Definition x_spec (N i : nat) : T := x_back (N - 1 - i) i.

Definition solve_spec : list T :=
  map (x_spec (Z.to_nat (n M))) (seq 0 (Z.to_nat (n M))).

(** The three-term determinant recurrence over the leading principal
    submatrices: [det(0) = diag(0)],
    [det(1) = diag(1) * diag(0) - subdiag(1) * superdiag(0)],
    [det(k) = diag(k) * det(k-1) - subdiag(k) * superdiag(k-1) * det(k-2)]. *)
Fixpoint det_spec (k : nat) : T :=
  match k with
  | O => diag 0
  | Datatypes.S k1 =>
      match k1 with
      | O => sub (mul (diag 1) (diag 0)) (mul (subdiag 1) (superdiag 0))
      | Datatypes.S k2 =>
          sub (mul (diag k) (det_spec k1))
              (mul (mul (subdiag k) (superdiag k1)) (det_spec k2))
      end
  end.

(** The dense expansion of the matrix, entry by entry, and the dense
    matrix-vector product [M * x]: row [i] is the sum over all columns. *)
Definition entry (i j : nat) : T :=
  if (j =? i)%nat then diag i
  else if (j =? i + 1)%nat then superdiag i
  else if (i =? j + 1)%nat then subdiag i
  else zero.

Definition row_product (x : list T) (i : nat) : T :=
  fold_left (fun acc j => add acc (mul (entry i j) (nth j x zero)))
    (seq 0 (Z.to_nat (n M))) zero.

Definition mulvec (x : list T) : list T :=
  map (row_product x) (seq 0 (Z.to_nat (n M))).
End Specification.

(** ** Loop states, the calling relation of [detF], and test data *)

Section LoopStates.
Context {T : Type} {A : Arith T}.
Variable M : Matrix T.
Variable N : nat.

(** The slice [c] once rows [0 .. i-1] are eliminated, the slice [d] once
    rows [0 .. i-1] are substituted, and the slice [x] once rows
    [lo .. N-1] are solved. *)
Definition c_state (i : nat) : list T :=
  map (c_spec M) (seq 0 i) ++ repeat zero (N - 1 - i).

Definition d_state (r : list T) (i : nat) : list T :=
  map (d_spec M r) (seq 0 i) ++ repeat zero (N - i).

Definition x_state (r : list T) (lo : nat) : list T :=
  repeat zero lo ++ map (x_spec M r N) (seq lo (N - lo)).
End LoopStates.

(** The calls that one evaluation of [detF] at index [k] makes: none at
    [0] and [1], and at [k - 1] and [k - 2] everywhere else. *)
Inductive detF_calls : Z -> Z -> Prop :=
| calls_first (k : Z) : k <> 0 -> k <> 1 -> detF_calls (k - 1) k
| calls_second (k : Z) : k <> 0 -> k <> 1 -> detF_calls (k - 2) k.

(** The first system of the package's test, and what [TDMA] returns on it. *)
Definition test1_coefficients : list float := [2; 1; 1; 2; 1; 1; 2; 1; 1; 2]%float.
Definition test1_rhs : list float := [4; 8; 12; 11]%float.
Definition test1_solution : list float :=
  Eval vm_compute in
    match TDMA {| n := 4; m := test1_coefficients |} test1_rhs with
    | Ok x => x
    | _ => []
    end.

(** The second system of the package's test, and what [TDMA] returns on it. *)
Definition test2_matrix : Matrix float := {| n := 3; m := [3; 1; 1; 4; 2; 2; 5]%float |}.
Definition test2_rhs : list float := [5; 15; 19]%float.
Definition test2_solution : list float :=
  Eval vm_compute in
    match TDMA test2_matrix test2_rhs with Ok x => x | _ => [] end.

(** The matrix that swaps two unknowns (orthogonal, condition number 1),
    and a vector for it. *)
Definition swap_matrix : Matrix float := {| n := 2; m := [0; 1; 1; 0]%float |}.
Definition swap_unknowns : list float := [1; 2]%float.

(** The same system over the rationals. *)
Definition rational_matrix : Matrix Qc :=
  {| n := 2; m := [Q2Qc 2; Q2Qc 1; Q2Qc 1; Q2Qc 2] |}.
Definition rational_unknowns : list Qc := [Q2Qc 1; Q2Qc 2].

(** The five systems of [TestMatrix_TDMA_1]: coefficients, right-hand
    side, expected solution, in that order. *)
Definition tdata : list (list float) :=
  [ [2; 1; 1; 2; 1; 1; 2; 1; 1; 2];
    [4; 8; 12; 11];
    [1; 2; 3; 4];
    [3; 1; 1; 4; 2; 2; 5];
    [5; 15; 19];
    [1; 2; 3];
    [1; 2; 3; 4; 5; 6; 7; 8; 9; 1; 2; 3; 4];
    [1; 2; 3; 4; 5];
    (* {-0.7229, 0.8614, 0.1446, -0.3976, 1.5482}, each the nearest binary64 *)
    [-0x1.721ff2e48e8a7p-1; 0x1.b9096bb98c7e3p-1; 0x1.28240b780346ep-3;
     -0x1.972474538ef35p-2; 0x1.8c56d5cfaacdap+0];
    [6; 0; 1; 4; 1; 1; 4; 1; 1; 4; 1; 1; 4; 1; 1; 4; 1; 0; 6];
    [0; 1; 2; -6; 2; 1; 0];
    [0; 0; 1; -2; 1; 0; 0];
    [2; 1; 1; 3; 2; 1; 3; 1; 7; 2; 6; 6; 2; 1; 3; 4; 3; 8; 1; 5; 6; 2; 7; 5; 4; 3; 4; 5];
    [1; 2; 6; 34; 10; 1; 4; 22; 25; 3];
    [1; -1; 2; 1; 3; -2; 0; 4; 2; -1] ]%float.

(** What the test tells [testing.T] about one system. *)
Inductive report : Type :=
| Fatalf (tno : Z) (e : error float)              (* "#%d: invalid test data: %v" *)
| Errorf_failed (tno : Z) (e : error float)       (* "#%d: TDMA failed: %v" *)
| Errorf_got (tno : Z) (got want : list float)    (* "#%d: got %+v, want %+v" *)
| Logf_passed (tno : Z) (x : list float).         (* "#%d: passed: %+v" *)

(** The loop of [TestMatrix_TDMA_1] over a table [t]:
    [for i := 0; i < len(t); i += 3].  [None] is a panic (an index out of
    range, or a panic of [TDMA]); [Fatalf] ends the test. *)
Fixpoint test_loop (rounds : nat) (i : Z) (t : list (list float)) : option (list report) :=
  match rounds with
  | O => Some []
  | Datatypes.S rounds' =>
      let tno := Z.quot i 3 + 1 in
      match nth_error t (Z.to_nat i) with
      | None => None
      | Some coefficients =>
          match New coefficients with
          | Panic => None
          | Err e => Some [Fatalf tno e]
          | Ok M =>
              match nth_error t (Z.to_nat (i + 1)) with
              | None => None
              | Some rhs =>
                  match TDMA M rhs with
                  | Panic => None
                  | Err e =>
                      option_map (cons (Errorf_failed tno e)) (test_loop rounds' (i + 3) t)
                  | Ok x =>
                      match nth_error t (Z.to_nat (i + 2)) with
                      | None => None
                      | Some want =>
                          if negb (equal x want) then
                            option_map (cons (Errorf_got tno x want))
                              (test_loop rounds' (i + 3) t)
                          else
                            option_map (cons (Logf_passed tno x))
                              (test_loop rounds' (i + 3) t)
                      end
                  end
              end
          end
      end
  end.

(** [func TestMatrix_TDMA_1(t *testing.T)] *)
Definition TestMatrix_TDMA_1 : option (list report) :=
  test_loop (Z.to_nat (Z.quot (Z.of_nat (List.length tdata) + 2) 3)) 0 tdata.

(** ** The package variables as state *)

(** The value of a variable of type [error]: nil, or an object that a call
    of [errors.New] made (its identity and its text). *)
Inductive error_value : Type :=
| nil_error
| error_object (id : nat) (text : string).

(** The store of the two package variables, by name. *)
Definition package : Type := sentinel -> error_value.



(** An argument as [fmt.Errorf] receives it, and the error it builds. *)
Inductive argument (T : Type) : Type :=
| Wrapped (v : error_value)
| Integer (i : Z)
| Number (v : T).
Arguments Wrapped {T} v.
Arguments Integer {T} i.
Arguments Number {T} v.

Record built_error (T : Type) : Type := Errorf_in {
  format_in : string;
  arguments : list (argument T)
}.
Arguments Errorf_in {T} format_in arguments.

(** What a call does, with the error as built in the current store. *)
Inductive outcome (T A : Type) : Type :=
| Done (a : A)
| Failed (e : built_error T)
| Crashed.
Arguments Done {T A} a.
Arguments Failed {T A} e.
Arguments Crashed {T A}.

Definition bind_in {T A B} (r : outcome T A) (k : A -> outcome T B) : outcome T B :=
  match r with
  | Done a => k a
  | Failed e => Failed e
  | Crashed => Crashed
  end.

Notation "x <~ r ;; k" := (bind_in r (fun x => k))
  (at level 61, r at next level, right associativity).

Section ProgramInStore.
Context {T : Type} {A : Arith T}.

Definition make_in (k : Z) : outcome T (list T) :=
  if k <? 0 then Crashed else Done (repeat zero (Z.to_nat k)).

Definition index_in (s : list T) (i : Z) : outcome T T :=
  if i <? 0 then Crashed
  else match nth_error s (Z.to_nat i) with
       | Some v => Done v
       | None => Crashed
       end.

Definition assign_in (s : list T) (i : Z) (v : T) : outcome T (list T) :=
  if (i <? 0) || (len s <=? i) then Crashed
  else Done (update s (Z.to_nat i) v).

Fixpoint iterate_up_in {S} (count : nat) (i : Z) (body : Z -> S -> outcome T S)
    (s : S) : outcome T S :=
  match count with
  | O => Done s
  | Datatypes.S count' => s' <~ body i s ;; iterate_up_in count' (i + 1) body s'
  end.

Fixpoint iterate_down_in {S} (count : nat) (i : Z) (body : Z -> S -> outcome T S)
    (s : S) : outcome T S :=
  match count with
  | O => Done s
  | Datatypes.S count' => s' <~ body i s ;; iterate_down_in count' (i - 1) body s'
  end.

Definition for_up_in {S} (lo hi : Z) (body : Z -> S -> outcome T S) (s : S) :=
  iterate_up_in (Z.to_nat (hi - lo)) lo body s.

Definition for_down_in {S} (hi : Z) (body : Z -> S -> outcome T S) (s : S) :=
  iterate_down_in (Z.to_nat (hi + 1)) hi body s.

Variable g : package.

(** Lines 76-77 and 83-84: the variable [ErrTDMA] is read when the error
    is built. *)
Definition pivot_error_in (mm : list T) (i i3 : Z) : outcome T (list T) :=
  v <~ index_in mm i3 ;;
  Failed (Errorf_in "%w: m[%d] == m[%d]c[%d] == %f"
            [Wrapped (g ErrTDMA); Integer i3; Integer (i3 - 1); Integer (i - 1); Number v]).

Definition eliminate_in (mm : list T) (i : Z) (c : list T) : outcome T (list T) :=
  let i3 := i * 3 in
  a <~ index_in mm i3 ;; b <~ index_in mm (i3 - 1) ;; c1 <~ index_in c (i - 1) ;;
  if eqb a (mul b c1) then
    pivot_error_in mm i i3
  else
    e <~ index_in mm (i3 + 1) ;; a <~ index_in mm i3 ;;
    b <~ index_in mm (i3 - 1) ;; c1 <~ index_in c (i - 1) ;;
    assign_in c i (div e (sub a (mul b c1))).

Definition substitute_in (mm r c : list T) (i : Z) (d : list T) : outcome T (list T) :=
  let i3 := i * 3 in
  ri <~ index_in r i ;; b <~ index_in mm (i3 - 1) ;; d1 <~ index_in d (i - 1) ;;
  a <~ index_in mm i3 ;; b' <~ index_in mm (i3 - 1) ;; c1 <~ index_in c (i - 1) ;;
  assign_in d i (div (sub ri (mul b d1)) (sub a (mul b' c1))).

Definition back_substitute_in (c d : list T) (i : Z) (x : list T) : outcome T (list T) :=
  di <~ index_in d i ;; ci <~ index_in c i ;; x1 <~ index_in x (i + 1) ;;
  assign_in x i (sub di (mul ci x1)).

(** [func (m *Matrix) TDMA(r []float64) ([]float64, error)], run in the
    store [g].  No statement of the function assigns a package variable, so
    the store is the same at every statement and after the call. *)
Definition TDMA_in (M : Matrix T) (r : list T) : outcome T (list T) :=
  if negb (len r =? n M) then
    Failed (Errorf_in "%w: r must have exactly %d elements"
              [Wrapped (g ErrTDMA); Integer (n M)])
  else
    c <~ make_in (n M - 1) ;;
    m0 <~ index_in (m M) 0 ;;
    if eqb m0 zero then
      Failed (Errorf_in "%w: m[0] is zero" [Wrapped (g ErrTDMA)])
    else
      m1 <~ index_in (m M) 1 ;; m0 <~ index_in (m M) 0 ;;
      c <~ assign_in c 0 (div m1 m0) ;;
      c <~ for_up_in 1 (n M - 1) (eliminate_in (m M)) c ;;
      let i := n M - 1 in
      let i3 := (n M - 1) * 3 in
      a <~ index_in (m M) i3 ;; b <~ index_in (m M) (i3 - 1) ;; c1 <~ index_in c (i - 1) ;;
      if eqb a (mul b c1) then
        pivot_error_in (m M) i i3
      else
        d <~ make_in (n M) ;;
        r0 <~ index_in r 0 ;; m0 <~ index_in (m M) 0 ;;
        d <~ assign_in d 0 (div r0 m0) ;;
        d <~ for_up_in 1 (n M) (substitute_in (m M) r c) d ;;
        x <~ make_in (n M) ;;
        dn <~ index_in d (n M - 1) ;;
        x <~ assign_in x (n M - 1) dn ;;
        x <~ for_down_in (n M - 2) (back_substitute_in c d) x ;;
        Done x.

(** Reading in the store what [New] and [TDMA] record. *)
Definition value_of (o : operand T) : argument T :=
  match o with
  | W name => Wrapped (g name)
  | D i => Integer i
  | F v => Number v
  end.

Definition observe {B} (r : result T B) : outcome T B :=
  match r with
  | Ok a => Done a
  | Err e => Failed (Errorf_in (format e) (map value_of (operands e)))
  | Panic => Crashed
  end.
End ProgramInStore.

(** Two outcomes of one call in two stores [g1] and [g2] that differ at
    most in the value of [ErrTDMA] that an error wraps first. *)
Inductive differ_in_ErrTDMA {T A} (g1 g2 : package) : outcome T A -> outcome T A -> Prop :=
| both_done (a : A) : differ_in_ErrTDMA g1 g2 (Done a) (Done a)
| both_crashed : differ_in_ErrTDMA g1 g2 Crashed Crashed
| both_failed (text : string) (rest : list (argument T)) :
    (forall v, ~ In (Wrapped v) rest) ->
    differ_in_ErrTDMA g1 g2
      (Failed (Errorf_in text (Wrapped (g1 ErrTDMA) :: rest)))
      (Failed (Errorf_in text (Wrapped (g2 ErrTDMA) :: rest))).

(** ** Slices: reads and writes in range *)

Section SliceFacts.
Context {T : Type} {A : Arith T}.

Lemma index_at (s : list T) (i : Z) (k : nat) :
  i = Z.of_nat k -> (k < List.length s)%nat -> s[[i]] = Ok (nth k s zero).
Proof.
  intros -> Hk. unfold index.
  destruct (Z.ltb_spec (Z.of_nat k) 0) as [H|_]; [lia|].
  rewrite Nat2Z.id.
  destruct (nth_error s k) as [v|] eqn:E.
  - f_equal. symmetry. apply nth_error_nth. exact E.
  - apply nth_error_None in E. lia.
Qed.

Lemma index_out (s : list T) (i : Z) : i < 0 \/ len s <= i -> s[[i]] = Panic.
Proof.
  intros H. unfold index. destruct (Z.ltb_spec i 0) as [_|Hi]; [reflexivity|].
  assert (E : nth_error s (Z.to_nat i) = None) by (apply nth_error_None; unfold len in H; lia).
  rewrite E. reflexivity.
Qed.

Lemma assign_at (s : list T) (i : Z) (k : nat) (v : T) :
  i = Z.of_nat k -> (k < List.length s)%nat -> assign s i v = Ok (update s k v).
Proof.
  intros -> Hk. unfold assign, len.
  destruct (Z.ltb_spec (Z.of_nat k) 0) as [H|_]; [lia|].
  destruct (Z.leb_spec (Z.of_nat (List.length s)) (Z.of_nat k)) as [H|_]; [lia|].
  rewrite Nat2Z.id. reflexivity.
Qed.

Lemma make_at (k : Z) (j : nat) : k = Z.of_nat j -> make k = Ok (repeat zero j).
Proof.
  intros ->. unfold make. destruct (Z.ltb_spec (Z.of_nat j) 0) as [H|_]; [lia|].
  rewrite Nat2Z.id. reflexivity.
Qed.

Lemma update_middle (l1 l2 : list T) (a v : T) (k : nat) :
  List.length l1 = k -> update (l1 ++ a :: l2) k v = l1 ++ v :: l2.
Proof.
  intros <-. induction l1 as [|b l1 IH]; simpl; [reflexivity | rewrite IH; reflexivity].
Qed.

Lemma repeat_snoc (a : T) (k : nat) : repeat a (Datatypes.S k) = repeat a k ++ [a].
Proof. induction k as [|k IH]; simpl; [reflexivity | simpl in IH; rewrite <- IH; reflexivity]. Qed.

Lemma seq_snoc (lo k : nat) : seq lo (Datatypes.S k) = seq lo k ++ [(lo + k)%nat].
Proof. rewrite seq_S. reflexivity. Qed.

(** Entry [j] of a slice whose first [k] cells hold [f 0 .. f (k-1)]. *)
Lemma nth_filled (f : nat -> T) (k j : nat) (rest : list T) :
  (j < k)%nat -> nth j (map f (seq 0 k) ++ rest) zero = f j.
Proof.
  intros H. rewrite app_nth1 by (rewrite length_map, length_seq; exact H).
  rewrite (nth_indep _ zero (f 0%nat)) by (rewrite length_map, length_seq; exact H).
  rewrite map_nth, seq_nth by exact H. reflexivity.
Qed.

(** Writing cell [k] of such a slice extends the filled prefix. *)
Lemma update_filled (f : nat -> T) (k j : nat) :
  update (map f (seq 0 k) ++ repeat zero (Datatypes.S j)) k (f k)
  = map f (seq 0 (Datatypes.S k)) ++ repeat zero j.
Proof.
  simpl repeat. rewrite update_middle by (rewrite length_map, length_seq; reflexivity).
  rewrite seq_snoc, map_app, <- app_assoc. reflexivity.
Qed.

(** The same for a slice filled from its far end: cells [lo .. lo+k-1]
    hold [f lo .. f (lo+k-1)], the [lo] cells before them are zero. *)
Lemma nth_filled_back (f : nat -> T) (lo k j : nat) :
  (lo <= j < lo + k)%nat ->
  nth j (repeat zero lo ++ map f (seq lo k)) zero = f j.
Proof.
  intros H. rewrite app_nth2 by (rewrite repeat_length; lia).
  rewrite repeat_length.
  rewrite (nth_indep _ zero (f 0%nat)) by (rewrite length_map, length_seq; lia).
  rewrite map_nth, seq_nth by lia. f_equal. lia.
Qed.

Lemma update_filled_back (f : nat -> T) (lo k : nat) :
  update (repeat zero (Datatypes.S lo) ++ map f (seq (Datatypes.S lo) k)) lo (f lo)
  = repeat zero lo ++ map f (seq lo (Datatypes.S k)).
Proof.
  rewrite repeat_snoc, <- app_assoc. simpl app.
  rewrite update_middle by apply repeat_length. reflexivity.
Qed.
End SliceFacts.

(** ** The solver on a well-formed matrix with at least two rows *)

Section Solver.
Context {T : Type} {A : Arith T}.
Variable M : Matrix T.
Variable N : nat.
Hypothesis dimension : n M = Z.of_nat N.
Hypothesis coefficients : List.length (m M) = (3 * N - 2)%nat.
Hypothesis two_rows : (2 <= N)%nat.

Lemma length_c_state (i : nat) : (i <= N - 1)%nat -> List.length (c_state M N i) = (N - 1)%nat.
Proof.
  intros H. unfold c_state. rewrite length_app, length_map, length_seq, repeat_length. lia.
Qed.

Lemma length_d_state (r : list T) (i : nat) : (i <= N)%nat -> List.length (d_state M N r i) = N.
Proof.
  intros H. unfold d_state. rewrite length_app, length_map, length_seq, repeat_length. lia.
Qed.

Lemma length_x_state (r : list T) (lo : nat) : (lo <= N)%nat -> List.length (x_state M N r lo) = N.
Proof.
  intros H. unfold x_state. rewrite length_app, length_map, length_seq, repeat_length. lia.
Qed.

Lemma read_diag (i : nat) :
  (i <= N - 1)%nat -> (m M)[[Z.of_nat i * 3]] = Ok (diag M i).
Proof. intros H. apply index_at; lia. Qed.

Lemma read_subdiag (i : nat) :
  (1 <= i <= N - 1)%nat -> (m M)[[Z.of_nat i * 3 - 1]] = Ok (subdiag M i).
Proof. intros H. apply index_at; lia. Qed.

Lemma read_superdiag (i : nat) :
  (i <= N - 2)%nat -> (m M)[[Z.of_nat i * 3 + 1]] = Ok (superdiag M i).
Proof. intros H. apply index_at; lia. Qed.

Lemma read_c (i j : nat) (z : Z) :
  z = Z.of_nat j -> (j < i <= N - 1)%nat -> (c_state M N i)[[z]] = Ok (c_spec M j).
Proof.
  intros -> H. rewrite (index_at _ (k:=j)); [|reflexivity|rewrite length_c_state; lia].
  unfold c_state. rewrite nth_filled by lia. reflexivity.
Qed.

Lemma read_d (r : list T) (i j : nat) (z : Z) :
  z = Z.of_nat j -> (j < i <= N)%nat -> (d_state M N r i)[[z]] = Ok (d_spec M r j).
Proof.
  intros -> H. rewrite (index_at _ (k:=j)); [|reflexivity|rewrite length_d_state; lia].
  unfold d_state. rewrite nth_filled by lia. reflexivity.
Qed.

Lemma read_x (r : list T) (lo j : nat) (z : Z) :
  z = Z.of_nat j -> (lo <= j < N)%nat -> (x_state M N r lo)[[z]] = Ok (x_spec M r N j).
Proof.
  intros -> H. rewrite (index_at _ (k:=j)); [|reflexivity|rewrite length_x_state; lia].
  unfold x_state. rewrite nth_filled_back by lia. reflexivity.
Qed.

Lemma write_c (i : nat) (z : Z) :
  z = Z.of_nat i -> (i <= N - 2)%nat ->
  assign (c_state M N i) z (c_spec M i) = Ok (c_state M N (Datatypes.S i)).
Proof.
  intros -> H. rewrite (assign_at _ (k:=i)); [|reflexivity|rewrite length_c_state; lia].
  unfold c_state. replace (N - 1 - i)%nat with (Datatypes.S (N - 1 - Datatypes.S i)) by lia.
  rewrite update_filled. reflexivity.
Qed.

Lemma write_d (r : list T) (i : nat) (z : Z) :
  z = Z.of_nat i -> (i <= N - 1)%nat ->
  assign (d_state M N r i) z (d_spec M r i) = Ok (d_state M N r (Datatypes.S i)).
Proof.
  intros -> H. rewrite (assign_at _ (k:=i)); [|reflexivity|rewrite length_d_state; lia].
  unfold d_state. replace (N - i)%nat with (Datatypes.S (N - Datatypes.S i)) by lia.
  rewrite update_filled. reflexivity.
Qed.

Lemma write_x (r : list T) (i : nat) (z : Z) :
  z = Z.of_nat i -> (i <= N - 1)%nat ->
  assign (x_state M N r (Datatypes.S i)) z (x_spec M r N i) = Ok (x_state M N r i).
Proof.
  intros -> H. rewrite (assign_at _ (k:=i)); [|reflexivity|rewrite length_x_state; lia].
  unfold x_state. rewrite update_filled_back.
  replace (Datatypes.S (N - Datatypes.S i)) with (N - i)%nat by lia. reflexivity.
Qed.

(** One round of the first loop. *)
Lemma eliminate_row (i : nat) :
  (1 <= i <= N - 2)%nat ->
  eliminate (m M) (Z.of_nat i) (c_state M N i)
  = if collides M i then Err (collision_error M i) else Ok (c_state M N (Datatypes.S i)).
Proof.
  intros H. unfold eliminate, pivot_error. cbv zeta.
  rewrite read_diag, read_subdiag, read_superdiag by lia.
  rewrite (read_c (j:=i - 1)) by lia. cbn [bind].
  unfold collides. destruct (eqb _ _); [reflexivity|].
  destruct i as [|j]; [lia|].
  replace (Datatypes.S j - 1)%nat with j by lia.
  apply write_c; [reflexivity | lia].
Qed.

Lemma eliminate_rows (count i : nat) :
  (1 <= i)%nat -> (i + count = N - 1)%nat ->
  iterate_up count (Z.of_nat i) (eliminate (m M)) (c_state M N i)
  = match first_collision M i count with
    | Some j => Err (collision_error M j)
    | None => Ok (c_state M N (N - 1))
    end.
Proof.
  revert i. induction count as [|count IH]; intros i Hi Hc; cbn [iterate_up first_collision].
  - replace i with (N - 1)%nat by lia. reflexivity.
  - rewrite eliminate_row by lia.
    destruct (collides M i); [reflexivity|]. cbn [bind].
    replace (Z.of_nat i + 1) with (Z.of_nat (Datatypes.S i)) by lia.
    apply IH; lia.
Qed.

(** One round of the second loop. *)
Lemma substitute_row (r : list T) (i : nat) :
  List.length r = N -> (1 <= i <= N - 1)%nat ->
  substitute (m M) r (c_state M N (N - 1)) (Z.of_nat i) (d_state M N r i)
  = Ok (d_state M N r (Datatypes.S i)).
Proof.
  intros Hr H. unfold substitute. cbv zeta.
  rewrite (index_at r (k:=i)) by lia.
  rewrite read_diag, read_subdiag by lia.
  rewrite (read_d r (j:=i - 1)), (read_c (j:=i - 1)) by lia. cbn [bind].
  destruct i as [|j]; [lia|].
  replace (Datatypes.S j - 1)%nat with j by lia.
  apply write_d; [reflexivity | lia].
Qed.

Lemma substitute_rows (r : list T) (count i : nat) :
  List.length r = N -> (1 <= i)%nat -> (i + count = N)%nat ->
  iterate_up count (Z.of_nat i) (substitute (m M) r (c_state M N (N - 1))) (d_state M N r i)
  = Ok (d_state M N r N).
Proof.
  intros Hr. revert i. induction count as [|count IH]; intros i Hi Hc; cbn [iterate_up].
  - replace i with N by lia. reflexivity.
  - rewrite substitute_row by lia. cbn [bind].
    replace (Z.of_nat i + 1) with (Z.of_nat (Datatypes.S i)) by lia.
    apply IH; lia.
Qed.

Lemma x_spec_last (r : list T) : x_spec M r N (N - 1) = d_spec M r (N - 1).
Proof. unfold x_spec. replace (N - 1 - (N - 1))%nat with 0%nat by lia. reflexivity. Qed.

Lemma x_spec_step (r : list T) (i : nat) :
  (i <= N - 2)%nat ->
  x_spec M r N i
  = sub (d_spec M r i) (mul (c_spec M i) (x_spec M r N (Datatypes.S i))).
Proof.
  intros H. unfold x_spec.
  replace (N - 1 - i)%nat with (Datatypes.S (N - 1 - Datatypes.S i)) by lia.
  reflexivity.
Qed.

(** One round of the third loop. *)
Lemma back_substitute_row (r : list T) (i : nat) :
  (i <= N - 2)%nat ->
  back_substitute (c_state M N (N - 1)) (d_state M N r N) (Z.of_nat i) (x_state M N r (Datatypes.S i))
  = Ok (x_state M N r i).
Proof.
  intros H. unfold back_substitute.
  rewrite (read_d r (j:=i)), (read_c (j:=i)) by lia.
  rewrite (read_x r (j:=Datatypes.S i)) by lia. cbn [bind].
  rewrite <- x_spec_step by lia.
  apply write_x; [reflexivity | lia].
Qed.

Lemma back_substitute_rows (r : list T) (i : nat) :
  (i <= N - 2)%nat ->
  iterate_down (Datatypes.S i) (Z.of_nat i) (back_substitute (c_state M N (N - 1)) (d_state M N r N))
    (x_state M N r (Datatypes.S i))
  = Ok (x_state M N r 0).
Proof.
  induction i as [|i IH]; intros H; cbn [iterate_down].
  - rewrite back_substitute_row by lia. reflexivity.
  - rewrite back_substitute_row by lia. cbn [bind].
    replace (Z.of_nat (Datatypes.S i) - 1) with (Z.of_nat i) by lia.
    apply IH. lia.
Qed.

Lemma first_collision_snoc (lo count : nat) :
  first_collision M lo (Datatypes.S count)
  = match first_collision M lo count with
    | Some j => Some j
    | None => if collides M (lo + count) then Some (lo + count)%nat else None
    end.
Proof.
  revert lo. induction count as [|count IH]; intros lo.
  - cbn [first_collision]. rewrite Nat.add_0_r. reflexivity.
  - cbn [first_collision] in *. destruct (collides M lo); [reflexivity|].
    rewrite IH. replace (Datatypes.S lo + count)%nat with (lo + Datatypes.S count)%nat by lia.
    reflexivity.
Qed.

Lemma x_state_0 (r : list T) : x_state M N r 0 = solve_spec M r.
Proof.
  unfold x_state, solve_spec. rewrite dimension, Nat2Z.id, Nat.sub_0_r. reflexivity.
Qed.

(** The whole call. *)
Lemma TDMA_rows (r : list T) :
  List.length r = N ->
  TDMA M r
  = if eqb (diag M 0) zero then
      Err (Errorf "%w: m[0] is zero" [W ErrTDMA])
    else
      match first_collision M 1 (N - 1) with
      | Some j => Err (collision_error M j)
      | None => Ok (solve_spec M r)
      end.
Proof.
  intros Hr. unfold TDMA. rewrite dimension.
  replace (len r =? Z.of_nat N) with true by (symmetry; apply Z.eqb_eq; unfold len; lia).
  cbn [negb].
  rewrite (make_at (N - 1)) by lia. cbn [bind].
  rewrite (index_at (m M) (k:=0)) by lia.
  change (nth 0 (m M) zero) with (diag M 0). cbn [bind].
  destruct (eqb (diag M 0) zero); [reflexivity|].
  rewrite (index_at (m M) (k:=1)) by lia.
  change (nth 1 (m M) zero) with (superdiag M 0). cbn [bind].
  replace (repeat zero (N - 1)) with (c_state M N 0)
    by (unfold c_state; rewrite Nat.sub_0_r; reflexivity).
  change (div (superdiag M 0) (diag M 0)) with (c_spec M 0).
  rewrite write_c by lia. cbn [bind].
  unfold for_up.
  replace (Z.to_nat (Z.of_nat N - 1 - 1)) with (N - 2)%nat by lia.
  pose proof (eliminate_rows (N - 2) (i:=1) ltac:(lia) ltac:(lia)) as E.
  change (Z.of_nat 1) with 1 in E. rewrite E. clear E.
  assert (Hfc : first_collision M 1 (N - 1)
                = match first_collision M 1 (N - 2) with
                  | Some j => Some j
                  | None => if collides M (N - 1) then Some (N - 1)%nat else None
                  end).
  { replace (N - 1)%nat with (Datatypes.S (N - 2)) at 1 by lia.
    rewrite first_collision_snoc.
    replace (1 + (N - 2))%nat with (N - 1)%nat by lia. reflexivity. }
  rewrite Hfc. clear Hfc.
  destruct (first_collision M 1 (N - 2)) as [j|]; [reflexivity|]. cbn [bind].
  replace (Z.of_nat N - 1) with (Z.of_nat (N - 1)) by lia.
  rewrite read_diag, read_subdiag by lia.
  rewrite (read_c (j:=N - 2)) by lia. cbn [bind].
  unfold collides at 1. replace (N - 1 - 1)%nat with (N - 2)%nat by lia.
  destruct (eqb (diag M (N - 1)) _).
  { unfold pivot_error. rewrite read_diag by lia. reflexivity. }
  rewrite (make_at N) by lia. cbn [bind].
  rewrite (index_at r (k:=0)) by lia. cbn [bind].
  replace (repeat zero N) with (d_state M N r 0) at 1
    by (unfold d_state; rewrite Nat.sub_0_r; reflexivity).
  change (div (nth 0 r zero) (diag M 0)) with (d_spec M r 0).
  rewrite write_d by lia. cbn [bind].
  rewrite Nat2Z.id.
  pose proof (substitute_rows r (N - 1) (i:=1) Hr ltac:(lia) ltac:(lia)) as E.
  change (Z.of_nat 1) with 1 in E. rewrite E. clear E. cbn [bind].
  rewrite (read_d r (j:=N - 1)) by lia. cbn [bind].
  rewrite <- x_spec_last.
  replace (repeat zero N) with (x_state M N r (Datatypes.S (N - 1))).
  2:{ unfold x_state. replace (N - Datatypes.S (N - 1))%nat with 0%nat by lia.
      replace (Datatypes.S (N - 1)) with N by lia. simpl. apply app_nil_r. }
  rewrite write_x by lia. cbn [bind].
  unfold for_down.
  replace (Z.to_nat (Z.of_nat N - 2 + 1)) with (N - 1)%nat by lia.
  replace (Z.of_nat N - 2) with (Z.of_nat (N - 2)) by lia.
  pose proof (back_substitute_rows r (i:=N - 2) ltac:(lia)) as E.
  replace (Datatypes.S (N - 2)) with (N - 1)%nat in E by lia.
  rewrite E. clear E. cbn [bind].
  rewrite x_state_0. reflexivity.
Qed.
End Solver.

(** ** The solver at the edges: wrong length, a single row *)

Section SolverEdges.
Context {T : Type} {A : Arith T}.

Lemma TDMA_mismatch (M : Matrix T) (r : list T) :
  len r <> n M ->
  TDMA M r = Err (Errorf "%w: r must have exactly %d elements" [W ErrTDMA; D (n M)]).
Proof.
  intros H. unfold TDMA.
  destruct (Z.eqb_spec (len r) (n M)); [contradiction | reflexivity].
Qed.

(** With one row, [c] is empty and [m.m] has one element: the statement
    [c[0] = m.m[1] / m.m[0]] of line 71 is out of range on both sides. *)
Lemma TDMA_one_row (M : Matrix T) (r : list T) :
  n M = 1 -> List.length (m M) = 1%nat -> List.length r = 1%nat ->
  TDMA M r
  = if eqb (diag M 0) zero then Err (Errorf "%w: m[0] is zero" [W ErrTDMA])
    else Panic.
Proof.
  intros Hn Hm Hr. unfold TDMA. rewrite Hn.
  replace (len r =? 1) with true by (symmetry; apply Z.eqb_eq; unfold len; lia).
  cbn [negb]. rewrite (make_at 0) by lia. cbn [bind].
  rewrite (index_at (m M) (k:=0)) by lia.
  change (nth 0 (m M) zero) with (diag M 0). cbn [bind].
  destruct (eqb (diag M 0) zero); [reflexivity|].
  rewrite (index_out (m M) (i:=1)) by (unfold len; lia). reflexivity.
Qed.

Lemma first_collision_Some (M : Matrix T) (count lo i : nat) :
  first_collision M lo count = Some i <->
  (lo <= i < lo + count)%nat /\ collides M i = true
  /\ (forall j, (lo <= j < i)%nat -> collides M j = false).
Proof.
  revert lo. induction count as [|count IH]; intros lo; cbn [first_collision].
  - split; [discriminate | intros [H _]; lia].
  - destruct (collides M lo) eqn:E.
    + split.
      * intros H; injection H as <-. repeat split; [lia | lia | exact E | intros j Hj; lia].
      * intros (H1 & H2 & H3). f_equal.
        destruct (Nat.eq_dec lo i) as [Hi|Hi]; [exact Hi|].
        rewrite H3 in E by lia. discriminate.
    + rewrite IH. split.
      * intros (H1 & H2 & H3). repeat split; [lia | lia | exact H2 |].
        intros j Hj. destruct (Nat.eq_dec j lo) as [->|Hne]; [exact E | apply H3; lia].
      * intros (H1 & H2 & H3).
        assert (lo <> i) by (intros ->; rewrite H2 in E; discriminate).
        repeat split; [lia | lia | exact H2 | intros j Hj; apply H3; lia].
Qed.

Lemma first_collision_None (M : Matrix T) (count lo : nat) :
  first_collision M lo count = None <->
  (forall j, (lo <= j < lo + count)%nat -> collides M j = false).
Proof.
  revert lo. induction count as [|count IH]; intros lo; cbn [first_collision].
  - split; [intros _ j Hj; lia | reflexivity].
  - destruct (collides M lo) eqn:E.
    + split; [discriminate | intros H; rewrite H in E by lia; discriminate].
    + rewrite IH. split.
      * intros H j Hj. destruct (Nat.eq_dec j lo) as [->|Hne]; [exact E | apply H; lia].
      * intros H j Hj. apply H. lia.
Qed.

(** A well-formed matrix, with its dimension as a natural number. *)
Lemma well_formed_rows (M : Matrix T) :
  well_formed M ->
  exists N, n M = Z.of_nat N /\ List.length (m M) = (3 * N - 2)%nat /\ (1 <= N)%nat.
Proof.
  intros [H1 H2]. exists (Z.to_nat (n M)). unfold len in H2. lia.
Qed.

(** From two rows on, the call never panics. *)
Lemma TDMA_in_bounds (M : Matrix T) (r : list T) :
  well_formed M -> 2 <= n M -> TDMA M r <> Panic.
Proof.
  intros WF H2. destruct (well_formed_rows WF) as (N & HN & Hm & _).
  destruct (Z.eq_dec (len r) (n M)) as [Hr|Hr].
  - rewrite (@TDMA_rows _ _ M N HN Hm ltac:(lia) r) by (unfold len in Hr; lia).
    destruct (eqb _ _); [discriminate|].
    destruct (first_collision _ _ _); discriminate.
  - rewrite TDMA_mismatch by exact Hr. discriminate.
Qed.
End SolverEdges.

(** ** The determinant *)

Section DeterminantFacts.
Context {T : Type} {A : Arith T}.
Variable M : Matrix T.
Variable N : nat.
Hypothesis coefficients : List.length (m M) = (3 * N - 2)%nat.

(** A call stack of depth [k + 1] is enough at index [k]. *)
Lemma detF_rows (fuel k : nat) :
  (k < fuel)%nat -> (k <= N - 1)%nat -> (1 <= N)%nat ->
  detF fuel (m M) (Z.of_nat k) = Some (Ok (det_spec M k)).
Proof.
  revert k. induction fuel as [|fuel IH]; intros k Hf Hk HN; [lia|].
  cbn [detF].
  destruct k as [ | [ | k ] ].
  - cbn [Z.of_nat Z.eqb]. rewrite (index_at (m M) (k:=0)) by lia. reflexivity.
  - change (Z.of_nat 1) with 1. cbn [Z.eqb Pos.eqb].
    rewrite (index_at (m M) (k:=3)), (index_at (m M) (k:=0)),
      (index_at (m M) (k:=2)), (index_at (m M) (k:=1)) by lia.
    reflexivity.
  - set (k2 := Datatypes.S (Datatypes.S k)).
    destruct (Z.eqb_spec (Z.of_nat k2) 0) as [E|_]; [lia|].
    destruct (Z.eqb_spec (Z.of_nat k2) 1) as [E|_]; [lia|].
    cbv zeta.
    rewrite (index_at (m M) (k:=3 * k2)) by lia.
    rewrite (index_at (m M) (k:=3 * k2 - 1)) by lia.
    rewrite (index_at (m M) (k:=3 * Datatypes.S k + 1)) by lia.
    replace (Z.of_nat k2 - 1) with (Z.of_nat (Datatypes.S k)) by lia.
    replace (Z.of_nat k2 - 2) with (Z.of_nat k) by lia.
    rewrite !IH by lia. reflexivity.
Qed.
End DeterminantFacts.

(** At a negative index no call stack is deep enough: the calls come before
    any read of the slice, and each one is at a smaller index. *)
Lemma detF_negative {T : Type} {A : Arith T} (fuel : nat) (elem : list T) (k : Z) :
  k < 0 -> detF fuel elem k = None.
Proof.
  revert k. induction fuel as [|fuel IH]; intros k Hk; [reflexivity|].
  cbn [detF].
  destruct (Z.eqb_spec k 0) as [E|_]; [lia|].
  destruct (Z.eqb_spec k 1) as [E|_]; [lia|].
  cbv zeta. rewrite IH by lia. reflexivity.
Qed.

Lemma detF_calls_terminate (k : Z) : 0 <= k -> Acc detF_calls k.
Proof.
  revert k. apply (Zlt_0_ind (fun k => Acc detF_calls k)).
  intros k IH Hk. constructor. intros j Hj.
  inversion Hj; subst; apply IH; lia.
Qed.

(** ** Construction *)

Section Construction.
Context {T : Type} {A : Arith T}.

Lemma len_nonneg (s : list T) : 0 <= len s.
Proof. unfold len; lia. Qed.

Lemma New_accepts (d : list T) :
  Z.rem (len d) 3 = 1 ->
  New d = Ok {| n := (len d - 1) / 3 + 1; m := d |}.
Proof.
  intros H. unfold New. rewrite H. simpl.
  pose proof (len_nonneg d) as Hl.
  assert (1 <= len d).
  { destruct (Z.eq_dec (len d) 0) as [E|E]; [rewrite E in H; discriminate | lia]. }
  rewrite Z.quot_div_nonneg by lia. reflexivity.
Qed.

Lemma New_rejects (d : list T) :
  Z.rem (len d) 3 <> 1 ->
  New d = Err (Errorf "%w: length %d must 3n-2"
                 [W ErrInvalidTridiagonalMatrix; D (len d)]).
Proof.
  intros H. unfold New.
  destruct (Z.eqb_spec (Z.rem (len d) 3) 1); [contradiction | reflexivity].
Qed.

Lemma shape_test (L : Z) :
  0 <= L -> (Z.rem L 3 = 1 <-> 1 <= L /\ (L - 1) mod 3 = 0).
Proof.
  intros HL. rewrite Z.rem_mod_nonneg by lia. split.
  - intros H. assert (L <> 0) by (intros ->; discriminate).
    split; [lia|].
    pose proof (Z.div_mod L 3 ltac:(lia)) as E.
    replace (L - 1) with (0 + (L / 3) * 3) by lia.
    rewrite Z.mod_add by lia. reflexivity.
  - intros [H1 H2].
    pose proof (Z.div_mod (L - 1) 3 ltac:(lia)) as E.
    replace L with (1 + ((L - 1) / 3) * 3) by lia.
    rewrite Z.mod_add by lia. reflexivity.
Qed.

Lemma New_well_formed (d : list T) (M : Matrix T) :
  New d = Ok M -> well_formed M /\ m M = d.
Proof.
  unfold New. destruct (Z.eqb_spec (Z.rem (len d) 3) 1) as [E|E]; cbn [negb]; [|discriminate].
  intros H; injection H as <-. cbn [m]. split; [|reflexivity].
  pose proof (len_nonneg d) as Hl.
  apply shape_test in E; [|lia]. destruct E as [E1 E2].
  rewrite Z.quot_div_nonneg by lia.
  pose proof (Z.div_mod (len d - 1) 3 ltac:(lia)) as E.
  pose proof (Z.div_pos (len d - 1) 3 ltac:(lia) ltac:(lia)) as P.
  unfold well_formed; cbn [n m]. lia.
Qed.

Lemma well_formed_New (M : Matrix T) :
  well_formed M -> New (m M) = Ok M.
Proof.
  intros [H1 H2]. destruct M as [k d]; cbn [n m] in *.
  assert (E : len d - 1 = (k - 1) * 3) by lia.
  rewrite New_accepts.
  - rewrite E, Z.div_mul by lia. do 2 f_equal. lia.
  - apply shape_test; [apply len_nonneg|]. split; [lia|].
    rewrite E. apply Z.mod_mul. lia.
Qed.
End Construction.

(** C5. [New] succeeds exactly on the lengths [L >= 1] with
    [(L - 1) mod 3 = 0]; on success the matrix holds [n = (L-1)/3 + 1] and
    the caller's coefficient sequence itself; on failure the caller gets a
    nil matrix and an error that wraps [ErrInvalidTridiagonalMatrix] and
    carries [L]. *)
Theorem New_shape_validation (d : list float) :
  let L := len d in
  ((exists M, New d = Ok M) <-> (1 <= L /\ (L - 1) mod 3 = 0))
  /\ (1 <= L /\ (L - 1) mod 3 = 0 ->
      New d = Ok {| n := (L - 1) / 3 + 1; m := d |})
  /\ (~ (1 <= L /\ (L - 1) mod 3 = 0) ->
      exists e, New d = Err e
                /\ returned (New d) = Some (None, Some e)
                /\ Is e ErrInvalidTridiagonalMatrix
                /\ In (D L) (operands e)).
Proof.
  intros L. pose proof (shape_test (len_nonneg d)) as S. fold L in S.
  assert (Hacc : 1 <= L /\ (L - 1) mod 3 = 0 ->
                 New d = Ok {| n := (L - 1) / 3 + 1; m := d |}).
  { intros H. apply New_accepts. apply S. exact H. }
  assert (Hrej : ~ (1 <= L /\ (L - 1) mod 3 = 0) ->
                 New d = Err (Errorf "%w: length %d must 3n-2"
                                [W ErrInvalidTridiagonalMatrix; D L])).
  { intros H. apply New_rejects. intros E. apply H, S, E. }
  split; [|split].
  - split.
    + intros [M HM].
      destruct (Z.eq_dec (Z.rem L 3) 1) as [E|E]; [apply S, E|].
      rewrite New_rejects in HM by exact E. discriminate.
    + intros H. eexists. apply Hacc, H.
  - exact Hacc.
  - intros H. eexists. rewrite (Hrej H). split; [reflexivity|]. split; [reflexivity|].
    split; [left; reflexivity | right; left; reflexivity].
Qed.

(** ** The algorithm in exact arithmetic *)

Unset Implicit Arguments.

Lemma Qc_eq_bool_iff (a b : Qc) : Qc_eq_bool a b = true <-> a = b.
Proof.
  split; [apply Qc_eq_bool_correct|].
  intros ->. unfold Qc_eq_bool. destruct (Qc_eq_dec b b); [reflexivity | contradiction].
Qed.

#[global] Instance rational_exact : Exact rational := {
  one := Q2Qc 1;
  opp := Qcopp;
  inv := Qcinv;
  exact_field := Qcft;
  exact_eqb := Qc_eq_bool_iff
}.

Section ExactArithmetic.
Context {T : Type} {A : Arith T} {E : Exact A}.
Variable M : Matrix T.
Variable N : nat.
Hypothesis dimension : n M = Z.of_nat N.
Hypothesis two_rows : (2 <= N)%nat.
Variable x : list T.
Hypothesis unknowns : List.length x = N.

Add Field exact_arithmetic : exact_field.

Local Abbreviation X i := (nth i x zero).

Lemma X_beyond : X N = zero.
Proof. apply nth_overflow. lia. Qed.

(** Columns outside the band add nothing to a row. *)
Lemma row_skip (i : nat) (cols : list nat) (acc : T) :
  (forall j, In j cols -> j <> i /\ j <> (i + 1)%nat /\ i <> (j + 1)%nat) ->
  fold_left (fun acc j => add acc (mul (entry M i j) (X j))) cols acc = acc.
Proof.
  revert acc. induction cols as [|j cols IH]; intros acc H; [reflexivity|].
  cbn [fold_left]. rewrite IH by (intros j' Hj'; apply H; right; exact Hj').
  destruct (H j (or_introl eq_refl)) as (H1 & H2 & H3).
  unfold entry.
  destruct (Nat.eqb_spec j i); [contradiction|].
  destruct (Nat.eqb_spec j (i + 1)); [contradiction|].
  destruct (Nat.eqb_spec i (j + 1)); [contradiction|].
  ring.
Qed.

(** The sum over the columns [0 .. N-1] is the sum over [0 .. N]: the
    extra column meets the zero beyond the end of [x]. *)
Lemma row_product_extended (i : nat) :
  row_product M x i
  = fold_left (fun acc j => add acc (mul (entry M i j) (X j)))
      (seq 0 (Datatypes.S N)) zero.
Proof.
  unfold row_product. rewrite dimension, Nat2Z.id.
  rewrite seq_snoc, fold_left_app. cbn [fold_left Nat.add].
  rewrite X_beyond. ring.
Qed.

Lemma row_product_first :
  row_product M x 0 = add (mul (diag M 0) (X 0)) (mul (superdiag M 0) (X 1)).
Proof.
  rewrite row_product_extended.
  replace (Datatypes.S N) with (2 + (N - 1))%nat by lia.
  rewrite seq_app, fold_left_app.
  rewrite (row_skip 0 (seq _ (N - 1))) by (intros j Hj; apply in_seq in Hj; lia).
  cbn [seq fold_left]. unfold entry. cbn [Nat.eqb Nat.add]. ring.
Qed.

Lemma row_product_band (i : nat) :
  (1 <= i <= N - 1)%nat ->
  row_product M x i
  = add (add (mul (subdiag M i) (X (i - 1))) (mul (diag M i) (X i)))
        (mul (superdiag M i) (X (Datatypes.S i))).
Proof.
  intros H. rewrite row_product_extended.
  replace (Datatypes.S N) with ((i - 1) + (3 + (N - 1 - i)))%nat by lia.
  rewrite seq_app, fold_left_app.
  rewrite (row_skip i (seq 0 (i - 1))) by (intros j Hj; apply in_seq in Hj; lia).
  rewrite seq_app, fold_left_app.
  rewrite (row_skip i (seq _ (N - 1 - i))) by (intros j Hj; apply in_seq in Hj; lia).
  cbn [seq fold_left Nat.add]. unfold entry.
  replace (Datatypes.S (i - 1)) with i by lia.
  replace (Datatypes.S i) with (i + 1)%nat by lia.
  rewrite Nat.eqb_refl.
  destruct (Nat.eqb_spec (i - 1) i) as [E1|_]; [lia|].
  destruct (Nat.eqb_spec (i - 1) (i + 1)) as [E1|_]; [lia|].
  destruct (Nat.eqb_spec i (i - 1 + 1)) as [_|E1]; [|lia].
  destruct (Nat.eqb_spec (i + 1) i) as [E1|_]; [lia|].
  rewrite Nat.eqb_refl. ring.
Qed.

Lemma nth_mulvec (i : nat) :
  (i < N)%nat -> nth i (mulvec M x) zero = row_product M x i.
Proof.
  intros H. unfold mulvec. rewrite dimension, Nat2Z.id.
  pose proof (nth_filled (row_product M x) [] H) as F.
  rewrite app_nil_r in F. exact F.
Qed.

Hypothesis first_pivot : eqb (diag M 0) zero = false.
Hypothesis later_pivots : forall i, (1 <= i <= N - 1)%nat -> collides M i = false.

Lemma first_pivot_nonzero : diag M 0 <> zero.
Proof. intros H. apply exact_eqb in H. rewrite H in first_pivot. discriminate. Qed.

Lemma later_pivot_nonzero (i : nat) :
  (i <= N - 2)%nat ->
  sub (diag M (Datatypes.S i)) (mul (subdiag M (Datatypes.S i)) (c_spec M i)) <> zero.
Proof.
  intros H Hz.
  assert (Hc : collides M (Datatypes.S i) = true).
  { unfold collides. apply exact_eqb.
    replace (Datatypes.S i - 1)%nat with i by lia.
    transitivity (add (sub (diag M (Datatypes.S i)) (mul (subdiag M (Datatypes.S i)) (c_spec M i)))
                      (mul (subdiag M (Datatypes.S i)) (c_spec M i))); [ring|].
    rewrite Hz. ring. }
  rewrite later_pivots in Hc by lia. discriminate.
Qed.

(** After forward substitution, [d[i] = x[i] + c[i] * x[i+1]]. *)
Lemma d_spec_exact (i : nat) :
  (i <= N - 1)%nat ->
  d_spec M (mulvec M x) i = add (X i) (mul (c_spec M i) (X (Datatypes.S i))).
Proof.
  induction i as [|i IH]; intros H.
  - cbn [d_spec c_spec]. rewrite nth_mulvec, row_product_first by lia.
    pose proof first_pivot_nonzero. field. assumption.
  - cbn [d_spec c_spec]. rewrite IH by lia.
    rewrite nth_mulvec, row_product_band by lia.
    replace (Datatypes.S i - 1)%nat with i by lia.
    pose proof (later_pivot_nonzero i ltac:(lia)). field. assumption.
Qed.

(** After back substitution, [x[i]] is recovered. *)
Lemma x_back_exact (k i : nat) :
  (i + k = N - 1)%nat -> x_back M (mulvec M x) k i = X i.
Proof.
  revert i. induction k as [|k IH]; intros i H; cbn [x_back].
  - rewrite d_spec_exact by lia. replace (Datatypes.S i) with N by lia.
    rewrite X_beyond. ring.
  - rewrite d_spec_exact, IH by lia. ring.
Qed.

Lemma solve_spec_exact : solve_spec M (mulvec M x) = x.
Proof.
  unfold solve_spec. rewrite dimension, Nat2Z.id.
  apply nth_ext with (d := zero) (d' := zero).
  - rewrite length_map, length_seq. symmetry. exact unknowns.
  - intros i Hi. rewrite length_map, length_seq in Hi.
    pose proof (nth_filled (x_spec M (mulvec M x) N) [] Hi) as F.
    rewrite app_nil_r in F. rewrite F. unfold x_spec. apply x_back_exact. lia.
Qed.
End ExactArithmetic.

(** ** The solver: length check, pivot failures, result *)

(** C7. A right-hand side whose length differs from [n] makes [TDMA] return
    nil together with a [TDMA failure] error that carries [n].  The guard is
    the first statement: the answer is the same whatever the coefficient
    slice holds, even an empty one on which any step of the elimination
    would panic, so no elimination step has run. *)
Theorem TDMA_rhs_length_check (M : Matrix float) (r : list float) :
  len r <> n M ->
  let e := Errorf "%w: r must have exactly %d elements" [W ErrTDMA; D (n M)] in
  TDMA M r = Err e
  /\ returned (TDMA M r) = Some (None, Some e)
  /\ Is e ErrTDMA
  /\ (forall coefficients, TDMA {| n := n M; m := coefficients |} r = Err e).
Proof.
  intros H e. rewrite (TDMA_mismatch M r H). fold e.
  split; [reflexivity|]. split; [reflexivity|]. split; [left; reflexivity|].
  intros mm. apply (TDMA_mismatch {| n := n M; m := mm |} r). exact H.
Qed.

Lemma TDMA_rhs_length_check_witness :
  TDMA {| n := 2; m := [2; 1; 1; 2]%float |} [1; 2; 3]%float
  = Err (Errorf "%w: r must have exactly %d elements" [W ErrTDMA; D 2]).
Proof.
  apply (TDMA_rhs_length_check {| n := 2; m := [2; 1; 1; 2]%float |} [1; 2; 3]%float).
  vm_compute. discriminate.
Defined.

(** C6. On a well-formed matrix and a right-hand side of matching length:
    a row-0 diagonal that compares equal to zero fails with the error that
    names [m[0]]; otherwise the first row [i] in [1 .. n-1] whose diagonal
    compares equal to [subdiag(i) * c[i-1]] (the comparison [collides],
    taken before any subtraction) fails with the error that carries the
    offsets [3i], [3i - 1], the index [i - 1] and the value [diag(i)]; and
    when no row collides no error is returned (from two rows on, the
    solution is). *)
Theorem TDMA_zero_pivot_detection (M : Matrix float) (r : list float) :
  well_formed M -> len r = n M ->
  (eqb (diag M 0) zero = true ->
   TDMA M r = Err (Errorf "%w: m[0] is zero" [W ErrTDMA]))
  /\ (eqb (diag M 0) zero = false ->
      forall i : nat,
        (1 <= i)%nat -> Z.of_nat i <= n M - 1 ->
        collides M i = true ->
        (forall j : nat, (1 <= j < i)%nat -> collides M j = false) ->
        TDMA M r = Err (collision_error M i))
  /\ (eqb (diag M 0) zero = false ->
      (forall j : nat, (1 <= j)%nat -> Z.of_nat j <= n M - 1 -> collides M j = false) ->
      (forall e, TDMA M r <> Err e)
      /\ (2 <= n M -> TDMA M r = Ok (solve_spec M r))).
Proof.
  intros WF Hr. destruct (well_formed_rows WF) as (N & HN & Hm & H1).
  assert (HrN : List.length r = N) by (unfold len in Hr; lia).
  destruct (Nat.eq_dec N 1) as [E1|E1].
  - (* one row *)
    rewrite (TDMA_one_row M r) by lia.
    split; [intros ->; reflexivity|]. split.
    + intros _ i Hi1 Hi2. lia.
    + intros -> _. split; [discriminate | lia].
  - (* two rows or more *)
    rewrite (@TDMA_rows _ _ M N HN Hm ltac:(lia) r HrN).
    split; [intros ->; reflexivity|]. split.
    + intros -> i Hi1 Hi2 Hc Hfirst.
      assert (F : first_collision M 1 (N - 1) = Some i)
        by (apply first_collision_Some; repeat split; [lia | lia | exact Hc | exact Hfirst]).
      rewrite F. reflexivity.
    + intros -> Hnone.
      assert (F : first_collision M 1 (N - 1) = None)
        by (apply first_collision_None; intros j Hj; apply Hnone; lia).
      rewrite F. split; [discriminate | reflexivity].
Qed.

Lemma TDMA_zero_pivot_detection_witness :
  TDMA {| n := 2; m := [1; 1; 1; 1]%float |} [1; 1]%float
  = Err (Errorf "%w: m[%d] == m[%d]c[%d] == %f" [W ErrTDMA; D 3; D 2; D 0; F 1%float]).
Proof.
  pose proof (TDMA_zero_pivot_detection {| n := 2; m := [1; 1; 1; 1]%float |} [1; 1]%float) as H.
  destruct H as (_ & H & _).
  - split; [cbn; lia | reflexivity].
  - reflexivity.
  - apply (H ltac:(reflexivity) 1%nat).
    + lia.
    + cbn; lia.
    + vm_compute; reflexivity.
    + intros j Hj; lia.
Defined.

(** The test is on the operands, before the subtraction: with an infinite
    diagonal and an infinite product the comparison holds and the call
    fails, while the subtracted pivot is a NaN that does not compare equal
    to zero. *)
Lemma collision_is_tested_before_subtraction :
  TDMA {| n := 2; m := [1; 1; infinity; infinity]%float |} [1; 1]%float
  = Err (collision_error {| n := 2; m := [1; 1; infinity; infinity]%float |} 1)
  /\ eqb (sub infinity (mul infinity (div 1 1)))%float zero = false.
Proof. split; vm_compute; reflexivity. Qed.

(** C3. Whenever [TDMA] returns a solution, it is the vector of the
    three-step algorithm of the specification: [c], [d] and [x] as defined
    by [c_spec], [d_spec] and [x_spec], each operation in [float64]. *)
Theorem TDMA_refines_specification (M : Matrix float) (r x : list float) :
  well_formed M ->
  TDMA M r = Ok x ->
  x = solve_spec M r
  /\ len x = n M
  /\ nth (Z.to_nat (n M) - 1) x zero = d_spec M r (Z.to_nat (n M) - 1)
  /\ (forall i : nat, Z.of_nat i <= n M - 2 ->
      nth i x zero = sub (d_spec M r i) (mul (c_spec M i) (nth (Datatypes.S i) x zero))).
Proof.
  intros WF H. destruct (well_formed_rows WF) as (N & HN & Hm & H1).
  destruct (Z.eq_dec (len r) (n M)) as [Hr|Hr].
  2:{ rewrite TDMA_mismatch in H by exact Hr. discriminate. }
  assert (HrN : List.length r = N) by (unfold len in Hr; lia).
  destruct (Nat.eq_dec N 1) as [E1|E1].
  { rewrite (TDMA_one_row M r) in H by lia.
    destruct (eqb _ _); discriminate. }
  rewrite (@TDMA_rows _ _ M N HN Hm ltac:(lia) r HrN) in H.
  destruct (eqb _ _); [discriminate|].
  destruct (first_collision _ _ _); [discriminate|].
  injection H as <-.
  assert (Hnth : forall i, (i < N)%nat -> nth i (solve_spec M r) zero = x_spec M r N i).
  { intros i Hi. unfold solve_spec. rewrite HN, Nat2Z.id.
    pose proof (nth_filled (x_spec M r N) [] Hi) as E.
    rewrite app_nil_r in E. exact E. }
  split; [reflexivity|]. split.
  { unfold solve_spec, len. rewrite length_map, length_seq. lia. }
  rewrite HN, Nat2Z.id. split.
  - rewrite Hnth by lia. apply (x_spec_last M Hm). lia.
  - intros i Hi. rewrite !Hnth by lia. apply (x_spec_step M Hm); lia.
Qed.

Lemma TDMA_refines_specification_witness :
  test2_solution = solve_spec test2_matrix test2_rhs.
Proof.
  apply (TDMA_refines_specification test2_matrix test2_rhs test2_solution).
  - split; [cbn; lia | reflexivity].
  - vm_compute. reflexivity.
Defined.

(** C2. The claim fails on the code at one row: [New] accepts the
    one-coefficient sequence [[5]] as a 1 x 1 matrix, and [TDMA] on it with
    the right-hand side [[1]] panics at [c[0] = m.m[1] / m.m[0]], where [c]
    has length 0 and [m.m] has length 1. *)
Theorem TDMA_single_row_panics :
  New [5]%float = Ok {| n := 1; m := [5]%float |}
  /\ well_formed {| n := 1; m := [5]%float |}
  /\ len [1]%float = n {| n := 1; m := [5]%float |}
  /\ TDMA {| n := 1; m := [5]%float |} [1]%float = Panic
  /\ returned (TDMA {| n := 1; m := [5]%float |} [1]%float) = None.
Proof.
  split; [vm_compute; reflexivity|].
  split; [split; [cbn; lia | reflexivity]|].
  split; [reflexivity|].
  split; vm_compute; reflexivity.
Qed.

(** C8. The first system of the package's test: the coefficients
    [{2,1, 1,2,1, 1,2,1, 1,2}] are accepted as a 4 x 4 matrix and, with the
    right-hand side [{4,8,12,11}], [TDMA] returns a vector that passes the
    test's comparison with [{1,2,3,4}] and whose every component is within
    [1e-3] of it. *)
Theorem TDMA_solves_first_test_system :
  exists (M : Matrix float) (x : list float),
    New [2; 1; 1; 2; 1; 1; 2; 1; 1; 2]%float = Ok M
    /\ n M = 4
    /\ TDMA M [4; 8; 12; 11]%float = Ok x
    /\ equal x [1; 2; 3; 4]%float = true
    /\ Forall2 (fun xe ye => PrimFloat.leb (PrimFloat.abs (PrimFloat.sub ye xe)) eps = true)
         x [1; 2; 3; 4]%float.
Proof.
  exists {| n := 4; m := test1_coefficients |}, test1_solution.
  split; [vm_compute; reflexivity|].
  split; [reflexivity|].
  split; [vm_compute; reflexivity|].
  split; [vm_compute; reflexivity|].
  repeat constructor.
Qed.

(** ** The determinant: value and termination *)

(** C4. On a well-formed matrix [Determinant] returns a number, never an
    error and never a panic, as soon as the call stack may hold [n] frames,
    and the number is [det(n-1)] of the three-term recurrence
    [det(0) = diag(0)], [det(1) = diag(1)*diag(0) - subdiag(1)*superdiag(0)],
    [det(k) = diag(k)*det(k-1) - subdiag(k)*superdiag(k-1)*det(k-2)], with
    [diag(k) = m[3k]], [subdiag(k) = m[3k-1]] and [superdiag(k-1) = m[3k-2]]. *)
Theorem Determinant_recurrence (M : Matrix float) :
  well_formed M ->
  (forall fuel : nat, (Z.to_nat (n M) <= fuel)%nat ->
     Determinant fuel M = Some (Ok (det_spec M (Z.to_nat (n M) - 1))))
  /\ det_spec M 0 = diag M 0
  /\ det_spec M 1 = sub (mul (diag M 1) (diag M 0)) (mul (subdiag M 1) (superdiag M 0))
  /\ (forall k : nat, (2 <= k)%nat ->
        det_spec M k
        = sub (mul (diag M k) (det_spec M (k - 1)))
              (mul (mul (subdiag M k) (superdiag M (k - 1))) (det_spec M (k - 2))))
  /\ (forall k : nat, (1 <= k)%nat ->
        diag M k = nth (3 * k) (m M) zero
        /\ subdiag M k = nth (3 * k - 1) (m M) zero
        /\ superdiag M (k - 1) = nth (3 * k - 2) (m M) zero).
Proof.
  intros WF. destruct (well_formed_rows WF) as (N & HN & Hm & H1).
  split; [ | split; [ reflexivity | ]; split; [ reflexivity | ]; split ].
  - intros fuel Hf. unfold Determinant. rewrite HN.
    replace (Z.of_nat N - 1) with (Z.of_nat (N - 1)) by lia.
    rewrite Nat2Z.id. apply (detF_rows M Hm); lia.
  - intros k Hk. destruct k as [ | [ | k ] ]; [lia | lia |].
    replace (Datatypes.S (Datatypes.S k) - 1)%nat with (Datatypes.S k) by lia.
    replace (Datatypes.S (Datatypes.S k) - 2)%nat with k by lia.
    reflexivity.
  - intros k Hk. split; [reflexivity|]. split; [reflexivity|].
    unfold superdiag. f_equal. lia.
Qed.

Lemma Determinant_recurrence_witness :
  Determinant 4 {| n := 4; m := [2; 1; 1; 2; 1; 1; 2; 1; 1; 2]%float |}
  = Some (Ok (det_spec {| n := 4; m := [2; 1; 1; 2; 1; 1; 2; 1; 1; 2]%float |} 3)).
Proof.
  apply (Determinant_recurrence {| n := 4; m := [2; 1; 1; 2; 1; 1; 2; 1; 1; 2]%float |}).
  - split; [cbn; lia | reflexivity].
  - cbn; lia.
Defined.

(** C10. On a coefficient sequence of length [3n - 2], [n >= 1], the
    evaluation of [detF(elem, n-1)] terminates with a number once the call
    stack may hold [n] frames: a call at an index [k >= 0] calls only at
    smaller indices that are still non-negative, and the index is
    accessible for the calling relation. *)
Theorem detF_terminates (elem : list float) (rows : Z) :
  1 <= rows -> len elem = 3 * rows - 2 ->
  (forall fuel : nat, (Z.to_nat rows <= fuel)%nat ->
     exists v, detF fuel elem (rows - 1) = Some (Ok v))
  /\ (forall k j : Z, 0 <= k -> detF_calls j k -> 0 <= j < k)
  /\ Acc detF_calls (rows - 1).
Proof.
  intros H1 Hlen. split; [|split].
  - intros fuel Hf. exists (det_spec {| n := rows; m := elem |} (Z.to_nat rows - 1)).
    replace (rows - 1) with (Z.of_nat (Z.to_nat rows - 1)) by lia.
    apply (detF_rows {| n := rows; m := elem |} (N:=Z.to_nat rows)).
    + unfold len in Hlen. cbn [m]. lia.
    + lia.
    + lia.
    + lia.
  - intros k j Hk Hc. inversion Hc; subst; lia.
  - apply detF_calls_terminate. lia.
Qed.

Lemma detF_terminates_witness :
  exists v, detF 4 [2; 1; 1; 2; 1; 1; 2; 1; 1; 2]%float 3 = Some (Ok v).
Proof.
  apply (detF_terminates [2; 1; 1; 2; 1; 1; 2; 1; 1; 2]%float 4).
  - lia.
  - reflexivity.
  - cbn; lia.
Defined.

(** ** Round trip *)

(** The claim of C1 as stated fails here: the product is [{2, 1}] and
    [TDMA] answers with the [m[0] is zero] failure instead of a solution. *)
Lemma round_trip_fails_on_swap :
  well_formed swap_matrix
  /\ len swap_unknowns = n swap_matrix
  /\ mulvec swap_matrix swap_unknowns = [2; 1]%float
  /\ TDMA swap_matrix (mulvec swap_matrix swap_unknowns)
     = Err (Errorf "%w: m[0] is zero" [W ErrTDMA])
  /\ ~ (exists x', TDMA swap_matrix (mulvec swap_matrix swap_unknowns) = Ok x'
                   /\ equal x' swap_unknowns = true).
Proof.
  split; [split; [cbn; lia | reflexivity]|].
  split; [reflexivity|].
  split; [vm_compute; reflexivity|].
  assert (H : TDMA swap_matrix (mulvec swap_matrix swap_unknowns)
              = Err (Errorf "%w: m[0] is zero" [W ErrTDMA]))
    by (vm_compute; reflexivity).
  split; [exact H|].
  intros (x' & Hx & _). rewrite H in Hx. discriminate.
Qed.

(** Even when [TDMA] succeeds, rounding can cost more than [1e-3] on a
    well-conditioned matrix: with rows [(2 1)] and [(1 2)] and
    [x = {1e16, 3}], the product rounds to [{2e16 + 4, 1e16 + 6}] and the
    second unknown comes back as [2.66...]. *)
Lemma round_trip_rounding :
  exists x',
    TDMA {| n := 2; m := [2; 1; 1; 2]%float |}
         (mulvec {| n := 2; m := [2; 1; 1; 2]%float |} [0x1.1c37937e08p+53; 3]%float)
    = Ok x'
    /\ equal x' [0x1.1c37937e08p+53; 3]%float = false.
Proof.
  destruct (TDMA {| n := 2; m := [2; 1; 1; 2]%float |}
              (mulvec {| n := 2; m := [2; 1; 1; 2]%float |} [0x1.1c37937e08p+53; 3]%float))
    as [ x' | e | ] eqn:E; [ | vm_compute in E; discriminate .. ].
  exists x'. split; [reflexivity|].
  vm_compute in E. injection E as <-. vm_compute. reflexivity.
Qed.

(** C1, amended.  On a well-formed matrix with at least two rows and a
    vector [x] of its dimension, [TDMA] applied to the dense product
    [M * x] either fails with a [TDMA failure], exactly when one of the
    pivot tests holds (the row-0 diagonal equals zero, or some row's diagonal
    equals [subdiag * c]: no pivoting is attempted), or returns a vector of
    the matrix's dimension; and in arithmetic without rounding that vector
    is [x].  This holds for every arithmetic, [float64] included. *)
Theorem TDMA_round_trip {T : Type} {A : Arith T} (M : Matrix T) (x : list T) :
  well_formed M -> 2 <= n M -> len x = n M ->
  ((eqb (diag M 0) zero = true
    \/ exists i : nat, (1 <= i)%nat /\ Z.of_nat i <= n M - 1 /\ collides M i = true)
   /\ exists e, TDMA M (mulvec M x) = Err e /\ Is e ErrTDMA)
  \/ (eqb (diag M 0) zero = false
      /\ (forall i : nat, (1 <= i)%nat -> Z.of_nat i <= n M - 1 -> collides M i = false)
      /\ exists x', TDMA M (mulvec M x) = Ok x'
                    /\ len x' = n M
                    /\ (Exact A -> x' = x)).
Proof.
  intros WF H2 Hx. destruct (well_formed_rows WF) as (N & HN & Hm & _).
  assert (HxN : List.length x = N) by (unfold len in Hx; lia).
  assert (Hr : List.length (mulvec M x) = N).
  { unfold mulvec. rewrite length_map, length_seq. lia. }
  rewrite (@TDMA_rows _ _ M N HN Hm ltac:(lia) (mulvec M x) Hr).
  destruct (eqb (diag M 0) zero) eqn:E0.
  { left. split; [left; reflexivity|].
    eexists. split; [reflexivity | left; reflexivity]. }
  destruct (first_collision M 1 (N - 1)) as [j|] eqn:F.
  { left. apply first_collision_Some in F. destruct F as (Hj & Hc & _). split.
    - right. exists j. repeat split; [lia | lia | exact Hc].
    - eexists. split; [reflexivity | left; reflexivity]. }
  right. split; [reflexivity|].
  assert (Hnone : forall i, (1 <= i <= N - 1)%nat -> collides M i = false).
  { intros i Hi. apply (proj1 (first_collision_None M (N - 1) 1) F). lia. }
  split; [intros i Hi1 Hi2; apply Hnone; lia|].
  eexists. split; [reflexivity|]. split.
  - unfold solve_spec, len. rewrite length_map, length_seq. lia.
  - intros E. apply (solve_spec_exact M N HN ltac:(lia) x HxN E0 Hnone).
Qed.

Lemma TDMA_round_trip_witness :
  TDMA rational_matrix (mulvec rational_matrix rational_unknowns)
  = Ok rational_unknowns.
Proof.
  destruct (TDMA_round_trip rational_matrix rational_unknowns) as [Hfail | Hok].
  - split; [cbn; lia | reflexivity].
  - cbn; lia.
  - reflexivity.
  - destruct Hfail as (_ & e & He & _). vm_compute in He. discriminate.
  - destruct Hok as (_ & _ & x' & Hx' & _ & Hexact).
    rewrite Hx'. f_equal. apply Hexact. exact rational_exact.
Defined.

(** ** Determinism and the package variables *)

Lemma same_bits_eq (a b : list float) : same_bits a b = true -> a = b.
Proof.
  revert b. induction a as [|u a IH]; intros [|v b] H; try discriminate; [reflexivity|].
  cbn [same_bits] in H. apply andb_prop in H. destruct H as [H1 H2].
  apply FloatAxioms.Leibniz.eqb_spec in H1. rewrite H1, (IH b H2). reflexivity.
Qed.


(** [==] identifies the two zeros, the bit-level comparison does not. *)
Lemma same_bits_is_finer_than_eqb :
  eqb 0%float (-0)%float = true /\ same_bits [0%float] [(-0)%float] = false.
Proof. split; vm_compute; reflexivity. Qed.

Section StoreFacts.
Context {T : Type} {A : Arith T}.

Lemma bind_in_ext {B C} (r : outcome T B) (k1 k2 : B -> outcome T C) :
  (forall a, k1 a = k2 a) -> bind_in r k1 = bind_in r k2.
Proof. intros H. destruct r; cbn [bind_in]; [apply H | reflexivity | reflexivity]. Qed.

(** *** [TDMA_in] returns what [TDMA] records, read in the store *)

Section Observation.
Variable g : package.

Lemma observe_bind {B C} (r : result T B) (k : B -> result T C) :
  observe g (bind r k) = bind_in (observe g r) (fun a => observe g (k a)).
Proof. destruct r; reflexivity. Qed.

Lemma observe_make (k : Z) : observe g (make k) = make_in k.
Proof. unfold make, make_in. destruct (k <? 0); reflexivity. Qed.

Lemma observe_index (s : list T) (i : Z) : observe g (index s i) = index_in s i.
Proof.
  unfold index, index_in. destruct (i <? 0); [reflexivity|].
  destruct (nth_error s (Z.to_nat i)); reflexivity.
Qed.

Lemma observe_assign (s : list T) (i : Z) (v : T) :
  observe g (assign s i v) = assign_in s i v.
Proof. unfold assign, assign_in. destruct ((i <? 0) || (len s <=? i)); reflexivity. Qed.

Lemma observe_iterate_up {S} (body : Z -> S -> result T S) (body_in : Z -> S -> outcome T S) :
  (forall i s, observe g (body i s) = body_in i s) ->
  forall count i s,
    observe g (iterate_up count i body s) = iterate_up_in count i body_in s.
Proof.
  intros H count. induction count as [|count IH]; intros i s; [reflexivity|].
  cbn [iterate_up iterate_up_in]. rewrite observe_bind, H.
  apply bind_in_ext. intros s'. apply IH.
Qed.

Lemma observe_iterate_down {S} (body : Z -> S -> result T S) (body_in : Z -> S -> outcome T S) :
  (forall i s, observe g (body i s) = body_in i s) ->
  forall count i s,
    observe g (iterate_down count i body s) = iterate_down_in count i body_in s.
Proof.
  intros H count. induction count as [|count IH]; intros i s; [reflexivity|].
  cbn [iterate_down iterate_down_in]. rewrite observe_bind, H.
  apply bind_in_ext. intros s'. apply IH.
Qed.

(** One statement of the two programs at a time. *)
Ltac observe_step :=
  rewrite observe_bind;
  rewrite ?observe_make, ?observe_index, ?observe_assign;
  apply bind_in_ext; intro.

Lemma observe_pivot_error (mm : list T) (i i3 : Z) :
  observe g (pivot_error mm i i3) = pivot_error_in g mm i i3.
Proof. unfold pivot_error, pivot_error_in. observe_step. reflexivity. Qed.

Lemma observe_eliminate (mm : list T) (i : Z) (c : list T) :
  observe g (eliminate mm i c) = eliminate_in g mm i c.
Proof.
  unfold eliminate, eliminate_in. cbv zeta. do 3 observe_step.
  destruct (eqb _ _); [apply observe_pivot_error|].
  do 4 observe_step. apply observe_assign.
Qed.

Lemma observe_substitute (mm r c : list T) (i : Z) (d : list T) :
  observe g (substitute mm r c i d) = substitute_in mm r c i d.
Proof.
  unfold substitute, substitute_in. cbv zeta. do 6 observe_step. apply observe_assign.
Qed.

Lemma observe_back_substitute (c d : list T) (i : Z) (x : list T) :
  observe g (back_substitute c d i x) = back_substitute_in c d i x.
Proof.
  unfold back_substitute, back_substitute_in. do 3 observe_step. apply observe_assign.
Qed.

Lemma TDMA_in_observe (M : Matrix T) (r : list T) :
  TDMA_in g M r = observe g (TDMA M r).
Proof.
  symmetry. unfold TDMA, TDMA_in.
  destruct (negb (len r =? n M)); [reflexivity|].
  do 2 observe_step.
  destruct (eqb _ zero); [reflexivity|].
  do 3 observe_step.
  rewrite observe_bind. unfold for_up, for_up_in.
  rewrite (observe_iterate_up _ (eliminate_in g (m M)) (observe_eliminate (m M))).
  apply bind_in_ext. intros c. cbv zeta.
  do 3 observe_step.
  destruct (eqb _ _); [apply observe_pivot_error|].
  do 4 observe_step.
  rewrite observe_bind.
  rewrite (observe_iterate_up _ (substitute_in (m M) r c) (observe_substitute (m M) r c)).
  apply bind_in_ext. intros d.
  do 3 observe_step.
  rewrite observe_bind. unfold for_down, for_down_in.
  rewrite (observe_iterate_down _ (back_substitute_in c d) (observe_back_substitute c d)).
  apply bind_in_ext. intros x. reflexivity.
Qed.
End Observation.

(** *** The same call in two stores *)

Section TwoStores.
Variables g1 g2 : package.

Local Abbreviation related := (differ_in_ErrTDMA g1 g2).












End TwoStores.
End StoreFacts.




(** * Further properties of the package *)

(** ** [float64]: the not-a-number and the two zeros *)

Lemma div_nan_r (f : float) : PrimFloat.div f nan = nan.
Proof.
  apply Prim2SF_inj. rewrite FloatAxioms.div_spec. change (Prim2SF nan) with S754_nan.
  destruct (Prim2SF f); reflexivity.
Qed.

Lemma mul_nan_r (f : float) : PrimFloat.mul f nan = nan.
Proof.
  apply Prim2SF_inj. rewrite FloatAxioms.mul_spec. change (Prim2SF nan) with S754_nan.
  destruct (Prim2SF f); reflexivity.
Qed.

Lemma sub_nan_r (f : float) : PrimFloat.sub f nan = nan.
Proof.
  apply Prim2SF_inj. rewrite FloatAxioms.sub_spec. change (Prim2SF nan) with S754_nan.
  destruct (Prim2SF f); reflexivity.
Qed.

Lemma sub_nan_l (f : float) : PrimFloat.sub nan f = nan.
Proof.
  apply Prim2SF_inj. rewrite FloatAxioms.sub_spec. change (Prim2SF nan) with S754_nan. reflexivity.
Qed.

Lemma eqb_nan_r (f : float) : PrimFloat.eqb f nan = false.
Proof.
  rewrite FloatAxioms.eqb_spec. change (Prim2SF nan) with S754_nan. destruct (Prim2SF f); reflexivity.
Qed.

Lemma eqb_nan_l (f : float) : PrimFloat.eqb nan f = false.
Proof. rewrite FloatAxioms.eqb_spec. change (Prim2SF nan) with S754_nan. reflexivity. Qed.

Lemma ltb_nan_r (f : float) : PrimFloat.ltb f nan = false.
Proof.
  rewrite FloatAxioms.ltb_spec. change (Prim2SF nan) with S754_nan. destruct (Prim2SF f); reflexivity.
Qed.

(** [f == 0] holds for the two zeros and for nothing else. *)
Lemma eqb_zero (f : float) :
  PrimFloat.eqb f 0 = true <-> f = 0%float \/ f = (-0)%float.
Proof.
  rewrite FloatAxioms.eqb_spec. split.
  - intros H. change (Prim2SF 0) with (S754_zero false) in H.
    destruct (Prim2SF f) as [ s | s | | s mm e ] eqn:E;
      try discriminate; try (destruct s; discriminate).
    destruct s; [right|left]; apply Prim2SF_inj; rewrite E; reflexivity.
  - intros [->| ->]; reflexivity.
Qed.

(** With a not-a-number on the first diagonal, every [c], [d] and [x] of
    the algorithm is a not-a-number and no row collides. *)
Section NaNHead.
Variable M : Matrix float.
Hypothesis head : diag M 0 = nan.

Lemma c_spec_nan (i : nat) : c_spec M i = nan.
Proof.
  induction i as [|i IH]; cbn [c_spec].
  - rewrite head. apply div_nan_r.
  - rewrite IH. cbn [mul sub div float64]. rewrite mul_nan_r, sub_nan_r. apply div_nan_r.
Qed.

Lemma d_spec_nan (r : list float) (i : nat) : d_spec M r i = nan.
Proof.
  destruct i as [|i]; cbn [d_spec].
  - rewrite head. apply div_nan_r.
  - rewrite c_spec_nan. cbn [mul sub div float64].
    rewrite (mul_nan_r (subdiag M (Datatypes.S i))), sub_nan_r. apply div_nan_r.
Qed.

Lemma x_back_nan (r : list float) (k i : nat) : x_back M r k i = nan.
Proof.
  destruct k as [|k]; cbn [x_back]; rewrite d_spec_nan; [reflexivity|].
  apply sub_nan_l.
Qed.

Lemma collides_nan (i : nat) : collides M i = false.
Proof.
  unfold collides. rewrite c_spec_nan. cbn [mul eqb float64].
  rewrite mul_nan_r. apply eqb_nan_r.
Qed.

Lemma solve_spec_nan (r : list float) :
  solve_spec M r = repeat nan (Z.to_nat (n M)).
Proof.
  unfold solve_spec. generalize (Z.to_nat (n M)) at 1 as N. intros N.
  generalize 0%nat. induction (Z.to_nat (n M)) as [|k IH]; intros lo; [reflexivity|].
  cbn [seq map repeat]. unfold x_spec at 1. rewrite x_back_nan, IH. reflexivity.
Qed.
End NaNHead.

(** ** The constructor *)

(** X1. [New] returns exactly the well-formed matrices: what it returns
    holds the caller's sequence and satisfies [len(m) = 3n - 2], [n >= 1];
    and every matrix with that invariant is what [New] returns on its own
    coefficients. *)
Theorem New_establishes_invariant (d : list float) (M : Matrix float) :
  New d = Ok M <-> well_formed M /\ m M = d.
Proof.
  split.
  - apply New_well_formed.
  - intros [WF <-]. apply well_formed_New. exact WF.
Qed.

(** ** The solver *)

(** X2. From two rows on, [TDMA] never panics, whatever the right-hand
    side: it returns an error that wraps [ErrTDMA], or a solution, and a
    solution has the dimension of the matrix. *)
Theorem TDMA_stays_in_bounds (M : Matrix float) (r : list float) :
  well_formed M -> 2 <= n M ->
  TDMA M r <> Panic
  /\ (forall e, TDMA M r = Err e -> Is e ErrTDMA)
  /\ (forall x, TDMA M r = Ok x -> len x = n M /\ len r = n M).
Proof.
  intros WF H2. destruct (well_formed_rows WF) as (N & HN & Hm & _).
  destruct (Z.eq_dec (len r) (n M)) as [Hr|Hr].
  - rewrite (@TDMA_rows _ _ M N HN Hm ltac:(lia) r) by (unfold len in Hr; lia).
    destruct (eqb (diag M 0) zero).
    { split; [discriminate|]. split; [|discriminate].
      intros e H; injection H as <-. left; reflexivity. }
    destruct (first_collision M 1 (N - 1)).
    { split; [discriminate|]. split; [|discriminate].
      intros e H; injection H as <-. left; reflexivity. }
    split; [discriminate|]. split; [discriminate|].
    intros x H; injection H as <-. split; [|exact Hr].
    unfold solve_spec, len. rewrite length_map, length_seq. lia.
  - rewrite TDMA_mismatch by exact Hr.
    split; [discriminate|]. split; [|discriminate].
    intros e H; injection H as <-. left; reflexivity.
Qed.

Lemma TDMA_stays_in_bounds_witness :
  TDMA test2_matrix test2_rhs <> Panic.
Proof.
  apply (TDMA_stays_in_bounds test2_matrix test2_rhs).
  - split; [cbn; lia | reflexivity].
  - cbn; lia.
Defined.

(** X3. On a matrix of one row [TDMA] never returns a solution: a
    right-hand side of another length is refused, a zero entry gives the
    [m[0] is zero] failure, and any other entry makes line 71 panic. *)
Theorem TDMA_one_row_never_solves (M : Matrix float) (r : list float) :
  well_formed M -> n M = 1 ->
  (len r <> 1 ->
   TDMA M r = Err (Errorf "%w: r must have exactly %d elements" [W ErrTDMA; D 1]))
  /\ (len r = 1 -> eqb (diag M 0) zero = true ->
      TDMA M r = Err (Errorf "%w: m[0] is zero" [W ErrTDMA]))
  /\ (len r = 1 -> eqb (diag M 0) zero = false -> TDMA M r = Panic)
  /\ (forall x, TDMA M r <> Ok x).
Proof.
  intros WF H1. destruct (well_formed_rows WF) as (N & HN & Hm & _).
  assert (Hm1 : List.length (m M) = 1%nat) by lia.
  assert (Hmis : len r <> 1 ->
                 TDMA M r = Err (Errorf "%w: r must have exactly %d elements"
                                   [W ErrTDMA; D 1])).
  { intros Hr. rewrite TDMA_mismatch by lia. rewrite H1. reflexivity. }
  assert (Hone : len r = 1 ->
                 TDMA M r = if eqb (diag M 0) zero
                            then Err (Errorf "%w: m[0] is zero" [W ErrTDMA])
                            else Panic).
  { intros Hr. apply TDMA_one_row; [exact H1 | exact Hm1 | unfold len in Hr; lia]. }
  split; [exact Hmis|]. split; [|split].
  - intros Hr E. rewrite (Hone Hr), E. reflexivity.
  - intros Hr E. rewrite (Hone Hr), E. reflexivity.
  - intros x. destruct (Z.eq_dec (len r) 1) as [Hr|Hr].
    + rewrite (Hone Hr). destruct (eqb _ _); discriminate.
    + rewrite (Hmis Hr). discriminate.
Qed.

Lemma TDMA_one_row_never_solves_witness :
  TDMA {| n := 1; m := [2]%float |} [6]%float = Panic.
Proof.
  apply (TDMA_one_row_never_solves {| n := 1; m := [2]%float |} [6]%float).
  - split; [cbn; lia | reflexivity].
  - reflexivity.
  - reflexivity.
  - vm_compute. reflexivity.
Defined.

(** X4. Whether [TDMA] fails, and with which error, is decided by the
    matrix alone: two right-hand sides of the right length get the same
    error, the same panic, or a solution each. *)
Theorem TDMA_failure_is_decided_by_matrix (M : Matrix float) (r1 r2 : list float) :
  well_formed M -> len r1 = n M -> len r2 = n M ->
  (forall e, TDMA M r1 = Err e <-> TDMA M r2 = Err e)
  /\ (TDMA M r1 = Panic <-> TDMA M r2 = Panic)
  /\ ((exists x, TDMA M r1 = Ok x) <-> (exists x, TDMA M r2 = Ok x)).
Proof.
  intros WF Hr1 Hr2. destruct (well_formed_rows WF) as (N & HN & Hm & H1).
  destruct (Nat.eq_dec N 1) as [E1|E1].
  - rewrite (TDMA_one_row M r1), (TDMA_one_row M r2) by (unfold len in *; lia).
    split; [intros e; reflexivity|]. split; reflexivity.
  - rewrite (@TDMA_rows _ _ M N HN Hm ltac:(lia) r1) by (unfold len in Hr1; lia).
    rewrite (@TDMA_rows _ _ M N HN Hm ltac:(lia) r2) by (unfold len in Hr2; lia).
    destruct (eqb (diag M 0) zero).
    { split; [intros e; reflexivity|]. split; [reflexivity|].
      split; intros [x H]; discriminate. }
    destruct (first_collision M 1 (N - 1)).
    { split; [intros e; reflexivity|]. split; [reflexivity|].
      split; intros [x H]; discriminate. }
    split; [intros e; split; discriminate|].
    split; [split; discriminate|].
    split; intros _; eexists; reflexivity.
Qed.

Lemma TDMA_failure_is_decided_by_matrix_witness :
  TDMA swap_matrix [2; 1]%float = Err (Errorf "%w: m[0] is zero" [W ErrTDMA])
  <-> TDMA swap_matrix [7; 9]%float = Err (Errorf "%w: m[0] is zero" [W ErrTDMA]).
Proof.
  apply (TDMA_failure_is_decided_by_matrix swap_matrix [2; 1]%float [7; 9]%float).
  - split; [cbn; lia | reflexivity].
  - reflexivity.
  - reflexivity.
Defined.

(** X5. With a right-hand side of the right length, [TDMA] reports
    [m[0] is zero] exactly when the first coefficient is one of the two
    zeros of [float64], [+0] or [-0]. *)
Theorem TDMA_zero_head_iff (M : Matrix float) (r : list float) :
  well_formed M -> len r = n M ->
  (TDMA M r = Err (Errorf "%w: m[0] is zero" [W ErrTDMA])
   <-> diag M 0 = 0%float \/ diag M 0 = (-0)%float).
Proof.
  intros WF Hr. rewrite <- eqb_zero. change (PrimFloat.eqb (diag M 0) 0) with (eqb (diag M 0) zero).
  destruct (well_formed_rows WF) as (N & HN & Hm & H1).
  destruct (Nat.eq_dec N 1) as [E1|E1].
  - rewrite (TDMA_one_row M r) by (unfold len in *; lia).
    destruct (eqb (diag M 0) zero); split; intros H; try reflexivity; discriminate.
  - rewrite (@TDMA_rows _ _ M N HN Hm ltac:(lia) r) by (unfold len in Hr; lia).
    destruct (eqb (diag M 0) zero); [split; reflexivity|].
    destruct (first_collision M 1 (N - 1)); split; intros H; discriminate.
Qed.

Lemma TDMA_zero_head_iff_witness :
  TDMA {| n := 2; m := [-0; 1; 1; 2]%float |} [1; 1]%float
  = Err (Errorf "%w: m[0] is zero" [W ErrTDMA]).
Proof.
  apply (TDMA_zero_head_iff {| n := 2; m := [-0; 1; 1; 2]%float |} [1; 1]%float).
  - split; [cbn; lia | reflexivity].
  - reflexivity.
  - right. reflexivity.
Defined.

(** X6. A not-a-number in [m[0]] is not caught by any pivot test: from two
    rows on, and with a right-hand side of the right length, [TDMA] returns
    a nil error and a vector whose every component is a not-a-number. *)
Theorem TDMA_propagates_NaN (M : Matrix float) (r : list float) :
  well_formed M -> 2 <= n M -> len r = n M ->
  diag M 0 = nan ->
  TDMA M r = Ok (repeat nan (Z.to_nat (n M)))
  /\ returned (TDMA M r) = Some (Some (repeat nan (Z.to_nat (n M))), None).
Proof.
  intros WF H2 Hr Hnan. destruct (well_formed_rows WF) as (N & HN & Hm & _).
  assert (E : TDMA M r = Ok (repeat nan (Z.to_nat (n M)))).
  { rewrite (@TDMA_rows _ _ M N HN Hm ltac:(lia) r) by (unfold len in Hr; lia).
    rewrite Hnan. change (eqb nan zero) with (PrimFloat.eqb nan 0). rewrite eqb_nan_l.
    assert (F : first_collision M 1 (N - 1) = None)
      by (apply first_collision_None; intros j _; apply collides_nan; exact Hnan).
    rewrite F, (solve_spec_nan M Hnan). reflexivity. }
  rewrite E. split; reflexivity.
Qed.

Lemma TDMA_propagates_NaN_witness :
  TDMA {| n := 3; m := [nan; 1; 1; 4; 2; 2; 5]%float |} test2_rhs = Ok [nan; nan; nan].
Proof.
  apply (TDMA_propagates_NaN {| n := 3; m := [nan; 1; 1; 4; 2; 2; 5]%float |} test2_rhs).
  - split; [cbn; lia | reflexivity].
  - cbn; lia.
  - reflexivity.
  - reflexivity.
Defined.

(** ** The test *)

(** X7. The comparison [equal] of the test cannot see a not-a-number: a
    computed vector of not-a-numbers passes against every expected vector
    of its length. *)
Theorem equal_accepts_NaN (want : list float) :
  equal (repeat nan (List.length want)) want = true.
Proof.
  induction want as [|ye want IH]; [reflexivity|].
  cbn [List.length repeat equal]. rewrite sub_nan_r.
  change (PrimFloat.abs nan) with nan. rewrite ltb_nan_r. exact IH.
Qed.

(** X8. [TestMatrix_TDMA_1] runs its five systems without a panic and
    reports a pass, and nothing else, for each of them. *)
Theorem TestMatrix_TDMA_1_passes :
  exists x1 x2 x3 x4 x5 : list float,
    TestMatrix_TDMA_1
    = Some [Logf_passed 1 x1; Logf_passed 2 x2; Logf_passed 3 x3;
            Logf_passed 4 x4; Logf_passed 5 x5].
Proof.
  destruct TestMatrix_TDMA_1 as [reports|] eqn:E; vm_compute in E; [|discriminate].
  injection E as <-. do 5 eexists. reflexivity.
Qed.

(** ** The solver and the determinant in exact arithmetic *)

(** The divisor of row [i]: [diag(0)], then [diag(i) - subdiag(i) * c[i-1]]. *)
Definition pivot {T : Type} {A : Arith T} (M : Matrix T) (i : nat) : T :=
  match i with
  | O => diag M 0
  | Datatypes.S j =>
      sub (diag M (Datatypes.S j)) (mul (subdiag M (Datatypes.S j)) (c_spec M j))
  end.

Section ExactSolutions.
Context {T : Type} {A : Arith T} {E : Exact A}.
Variable M : Matrix T.

Add Field exact_solutions : exact_field.

Lemma product_nonzero (a b : T) : a <> zero -> b <> zero -> mul a b <> zero.
Proof.
  intros Ha Hb H. apply Hb.
  transitivity (div (mul a b) a); [field; exact Ha|].
  rewrite H. field. exact Ha.
Qed.

Lemma collides_pivot (j : nat) :
  collides M (Datatypes.S j) = true <-> pivot M (Datatypes.S j) = zero.
Proof.
  unfold collides, pivot. rewrite exact_eqb.
  replace (Datatypes.S j - 1)%nat with j by lia.
  set (a := diag M (Datatypes.S j)). set (b := mul (subdiag M (Datatypes.S j)) (c_spec M j)).
  split.
  - intros ->. ring.
  - intros H. transitivity (add (sub a b) b); [ring|]. rewrite H. ring.
Qed.

Lemma first_pivot_zero : eqb (diag M 0) zero = true <-> pivot M 0 = zero.
Proof. apply exact_eqb. Qed.

Lemma c_spec_pivot (j : nat) : c_spec M j = div (superdiag M j) (pivot M j).
Proof. destruct j; reflexivity. Qed.

(** Each leading minor is the previous one times the pivot of its row. *)
Lemma det_spec_pivot (k : nat) :
  (forall j, (j <= k)%nat -> pivot M j <> zero) ->
  det_spec M (Datatypes.S k) = mul (pivot M (Datatypes.S k)) (det_spec M k).
Proof.
  induction k as [|k IH]; intros H.
  - pose proof (H 0%nat ltac:(lia)) as H0. cbn [pivot] in H0.
    cbn [det_spec pivot c_spec]. field. exact H0.
  - pose proof (H (Datatypes.S k) ltac:(lia)) as Hp.
    assert (D : det_spec M (Datatypes.S (Datatypes.S k))
                = sub (mul (diag M (Datatypes.S (Datatypes.S k))) (det_spec M (Datatypes.S k)))
                      (mul (mul (subdiag M (Datatypes.S (Datatypes.S k)))
                                (superdiag M (Datatypes.S k)))
                           (det_spec M k))) by reflexivity.
    assert (P : pivot M (Datatypes.S (Datatypes.S k))
                = sub (diag M (Datatypes.S (Datatypes.S k)))
                      (mul (subdiag M (Datatypes.S (Datatypes.S k)))
                           (c_spec M (Datatypes.S k)))) by reflexivity.
    rewrite D, (IH ltac:(intros j Hj; apply H; lia)), P, (c_spec_pivot (Datatypes.S k)).
    set (p := pivot M (Datatypes.S k)) in *. clearbody p. field. exact Hp.
Qed.

(** The pivots of rows [0 .. k] are all non-zero exactly when the leading
    minors [det(0) .. det(k)] are. *)
Lemma pivots_minors (k : nat) :
  (forall j, (j <= k)%nat -> pivot M j <> zero)
  <-> (forall j, (j <= k)%nat -> det_spec M j <> zero).
Proof.
  induction k as [|k IH].
  - split; intros H j Hj; replace j with 0%nat by lia; apply (H 0%nat); lia.
  - split; intros H.
    + assert (Hp : forall j, (j <= k)%nat -> pivot M j <> zero) by (intros j Hj; apply H; lia).
      pose proof (proj1 IH Hp) as Hd.
      intros j Hj. destruct (Nat.eq_dec j (Datatypes.S k)) as [->|Hne]; [|apply Hd; lia].
      rewrite (det_spec_pivot k Hp). apply product_nonzero; [apply H; lia | apply Hd; lia].
    + assert (Hd : forall j, (j <= k)%nat -> det_spec M j <> zero) by (intros j Hj; apply H; lia).
      pose proof (proj2 IH Hd) as Hp.
      intros j Hj. destruct (Nat.eq_dec j (Datatypes.S k)) as [->|Hne]; [|apply Hp; lia].
      intros Hz. apply (H (Datatypes.S k) ltac:(lia)).
      rewrite (det_spec_pivot k Hp), Hz. ring.
Qed.

Variable N : nat.
Hypothesis dimension : n M = Z.of_nat N.
Hypothesis two_rows : (2 <= N)%nat.

(** No pivot test fires exactly when every pivot is non-zero. *)
Lemma no_collision_pivots :
  (eqb (diag M 0) zero = false /\ first_collision M 1 (N - 1) = None)
  <-> (forall j, (j <= N - 1)%nat -> pivot M j <> zero).
Proof.
  rewrite first_collision_None. split.
  - intros [H0 H] j Hj. destruct j as [|j].
    + intros Hz. apply first_pivot_zero in Hz. rewrite Hz in H0. discriminate.
    + intros Hz. apply collides_pivot in Hz. rewrite H in Hz by lia. discriminate.
  - intros H. split.
    + destruct (eqb (diag M 0) zero) eqn:E0; [|reflexivity].
      apply first_pivot_zero in E0. exfalso. apply (H 0%nat); [lia | exact E0].
    + intros j Hj. destruct j as [|j]; [lia|].
      destruct (collides M (Datatypes.S j)) eqn:Ec; [|reflexivity].
      apply collides_pivot in Ec. exfalso. apply (H (Datatypes.S j)); [lia | exact Ec].
Qed.

Variable r : list T.
Hypothesis rhs : List.length r = N.
Hypothesis pivots : forall j, (j <= N - 1)%nat -> pivot M j <> zero.

Lemma x_spec_unfold (i : nat) :
  (i <= N - 2)%nat ->
  x_spec M r N i
  = sub (d_spec M r i) (mul (c_spec M i) (x_spec M r N (Datatypes.S i))).
Proof.
  intros H. unfold x_spec.
  replace (N - 1 - i)%nat with (Datatypes.S (N - 1 - Datatypes.S i)) by lia.
  reflexivity.
Qed.

Lemma x_spec_bottom : x_spec M r N (N - 1) = d_spec M r (N - 1).
Proof. unfold x_spec. replace (N - 1 - (N - 1))%nat with 0%nat by lia. reflexivity. Qed.

Lemma length_solve_spec : List.length (solve_spec M r) = N.
Proof. unfold solve_spec. rewrite length_map, length_seq. lia. Qed.

Lemma nth_solve_spec (i : nat) :
  (i < N)%nat -> nth i (solve_spec M r) zero = x_spec M r N i.
Proof.
  intros H. unfold solve_spec. rewrite dimension, Nat2Z.id.
  pose proof (nth_filled (x_spec M r N) [] H) as F.
  rewrite app_nil_r in F. exact F.
Qed.

(** What the algorithm returns satisfies every equation of the system. *)
Lemma solve_spec_residual : mulvec M (solve_spec M r) = r.
Proof.
  apply nth_ext with (d := zero) (d' := zero).
  { unfold mulvec. rewrite length_map, length_seq. lia. }
  intros i Hi.
  assert (HiN : (i < N)%nat).
  { unfold mulvec in Hi. rewrite length_map, length_seq in Hi. lia. }
  rewrite (nth_mulvec M N dimension) by exact HiN.
  destruct i as [|j].
  - rewrite (row_product_first M N dimension two_rows _ length_solve_spec).
    rewrite !nth_solve_spec by lia. rewrite (x_spec_unfold 0) by lia.
    pose proof (pivots 0%nat ltac:(lia)) as H0. cbn [pivot] in H0.
    cbn [d_spec c_spec]. field. exact H0.
  - rewrite (row_product_band M N dimension two_rows _ length_solve_spec) by lia.
    replace (Datatypes.S j - 1)%nat with j by lia.
    pose proof (pivots (Datatypes.S j) ltac:(lia)) as Hp. cbn [pivot] in Hp.
    rewrite (nth_solve_spec j), (nth_solve_spec (Datatypes.S j)) by lia.
    rewrite (x_spec_unfold j) by lia.
    destruct (Nat.eq_dec (Datatypes.S j) (N - 1)) as [Elast|Emid].
    + replace (nth (Datatypes.S (Datatypes.S j)) (solve_spec M r) zero) with (zero : T)
        by (symmetry; apply nth_overflow; rewrite length_solve_spec; lia).
      rewrite Elast, x_spec_bottom, <- Elast.
      cbn [d_spec]. field. exact Hp.
    + rewrite (nth_solve_spec (Datatypes.S (Datatypes.S j))) by lia.
      rewrite (x_spec_unfold (Datatypes.S j)) by lia.
      cbn [d_spec c_spec]. field. exact Hp.
Qed.
End ExactSolutions.

(** A row of [TDMA]'s outcome on a well-formed matrix of [N >= 2] rows. *)
Lemma TDMA_succeeds_iff {T : Type} {A : Arith T} (M : Matrix T) (N : nat) (r : list T) :
  n M = Z.of_nat N -> List.length (m M) = (3 * N - 2)%nat -> (2 <= N)%nat ->
  List.length r = N ->
  forall x, TDMA M r = Ok x <->
            (eqb (diag M 0) zero = false /\ first_collision M 1 (N - 1) = None)
            /\ x = solve_spec M r.
Proof.
  intros HN Hm H2 Hr x. rewrite (@TDMA_rows _ _ M N HN Hm H2 r Hr).
  destruct (eqb (diag M 0) zero).
  { split; [ discriminate | intros ((H & _) & _); discriminate ]. }
  destruct (first_collision M 1 (N - 1)).
  { split; [ discriminate | intros ((_ & H) & _); discriminate ]. }
  split.
  - intros H; injection H as <-. repeat split.
  - intros [_ ->]. reflexivity.
Qed.

(** X9. In arithmetic without rounding, a vector that [TDMA] returns is
    the one and only solution of the system: [M * y = r] holds for [y] of
    the matrix's dimension exactly when [y] is the returned vector. *)
Theorem TDMA_exact_unique_solution {T : Type} {A : Arith T} (E : Exact A)
    (M : Matrix T) (r x : list T) :
  well_formed M ->
  TDMA M r = Ok x ->
  mulvec M x = r
  /\ (forall y, len y = n M -> (mulvec M y = r <-> y = x)).
Proof.
  intros WF H. destruct (well_formed_rows WF) as (N & HN & Hm & H1).
  destruct (Z.eq_dec (len r) (n M)) as [Hr|Hr].
  2:{ rewrite TDMA_mismatch in H by exact Hr. discriminate. }
  assert (HrN : List.length r = N) by (unfold len in Hr; lia).
  destruct (Nat.eq_dec N 1) as [E1|E1].
  { rewrite (TDMA_one_row M r) in H by lia. destruct (eqb _ _); discriminate. }
  assert (H2 : (2 <= N)%nat) by lia.
  apply (TDMA_succeeds_iff M N r HN Hm H2 HrN) in H. destruct H as [Hnc ->].
  pose proof (proj1 (no_collision_pivots M N H2) Hnc) as Hp.
  pose proof (solve_spec_residual M N HN H2 r HrN Hp) as Hres.
  split; [exact Hres|].
  intros y Hy. split.
  - intros <-. symmetry. destruct Hnc as [H0 Hfc].
    apply (solve_spec_exact M N HN H2 y ltac:(unfold len in Hy; lia) H0).
    intros i Hi. apply (proj1 (first_collision_None M (N - 1) 1) Hfc). lia.
  - intros ->. exact Hres.
Qed.

Lemma TDMA_exact_unique_solution_witness :
  mulvec rational_matrix (solve_spec rational_matrix [Q2Qc 4; Q2Qc 5])
  = [Q2Qc 4; Q2Qc 5].
Proof.
  refine (proj1 (TDMA_exact_unique_solution rational_exact rational_matrix
                   [Q2Qc 4; Q2Qc 5] (solve_spec rational_matrix [Q2Qc 4; Q2Qc 5]) _ _)).
  - split; [cbn; lia | reflexivity].
  - apply (TDMA_succeeds_iff rational_matrix 2 [Q2Qc 4; Q2Qc 5]);
      [ reflexivity | reflexivity | lia | reflexivity | ].
    split; [ split; vm_compute; reflexivity | reflexivity ].
Defined.

(** X10. In arithmetic without rounding and from two rows on, [TDMA]
    returns a solution exactly when no leading principal minor, as [detF]
    computes them at the indices [0 .. n-1], is zero; in particular
    [Determinant] is then not zero. *)
Theorem TDMA_exact_succeeds_iff_minors {T : Type} {A : Arith T} (E : Exact A)
    (M : Matrix T) (r : list T) :
  well_formed M -> 2 <= n M -> len r = n M ->
  ((exists x, TDMA M r = Ok x)
   <-> (forall k : nat, Z.of_nat k < n M ->
        detF (Datatypes.S k) (m M) (Z.of_nat k) <> Some (Ok zero)))
  /\ ((exists x, TDMA M r = Ok x) ->
      forall fuel : nat, (Z.to_nat (n M) <= fuel)%nat ->
      exists v, Determinant fuel M = Some (Ok v) /\ v <> zero).
Proof.
  intros WF Hn Hr. destruct (well_formed_rows WF) as (N & HN & Hm & H1).
  assert (H2 : (2 <= N)%nat) by lia.
  assert (HrN : List.length r = N) by (unfold len in Hr; lia).
  assert (Hdet : forall k, (k <= N - 1)%nat ->
                 detF (Datatypes.S k) (m M) (Z.of_nat k) = Some (Ok (det_spec M k))).
  { intros k Hk. apply (detF_rows M Hm); lia. }
  assert (Hiff : (exists x, TDMA M r = Ok x)
                 <-> (forall j, (j <= N - 1)%nat -> det_spec M j <> zero)).
  { rewrite <- (pivots_minors M (N - 1)), <- (no_collision_pivots M N H2). split.
    - intros [x Hx]. apply (TDMA_succeeds_iff M N r HN Hm H2 HrN) in Hx. apply Hx.
    - intros Hnc. exists (solve_spec M r).
      apply (TDMA_succeeds_iff M N r HN Hm H2 HrN). split; [exact Hnc | reflexivity]. }
  split.
  - rewrite Hiff. split.
    + intros H k Hk. rewrite Hdet by lia. intros Heq. injection Heq as Heq.
      apply (H k); [lia | exact Heq].
    + intros H j Hj Hz. apply (H j); [lia|]. rewrite Hdet by lia. rewrite Hz. reflexivity.
  - intros Hok fuel Hf. exists (det_spec M (N - 1)). split.
    + unfold Determinant. rewrite HN.
      replace (Z.of_nat N - 1) with (Z.of_nat (N - 1)) by lia.
      apply (detF_rows M Hm); lia.
    + apply (proj1 Hiff Hok). lia.
Qed.

Lemma TDMA_exact_succeeds_iff_minors_witness :
  exists v, Determinant 2 rational_matrix = Some (Ok v) /\ v <> Q2Qc 0.
Proof.
  destruct (TDMA_exact_succeeds_iff_minors rational_exact rational_matrix [Q2Qc 4; Q2Qc 5])
    as [_ H].
  - split; [cbn; lia | reflexivity].
  - cbn; lia.
  - reflexivity.
  - apply H.
    + destruct (TDMA rational_matrix [Q2Qc 4; Q2Qc 5]) as [ x | e | ] eqn:Ex;
        [ exists x; reflexivity | vm_compute in Ex; discriminate .. ].
    + cbn; lia.
Defined.

(** ** Leading principal submatrices *)

Section Prefix.
Context {T : Type} {A : Arith T}.
Variables M1 M2 : Matrix T.
Variable k : nat.
Hypothesis agree : forall j, (j < 3 * k + 1)%nat -> nth j (m M1) zero = nth j (m M2) zero.

(** The recurrence up to index [k] reads the first [3k + 1] coefficients
    only. *)
Lemma det_spec_prefix (i : nat) :
  (i <= k)%nat ->
  det_spec M1 i = det_spec M2 i /\ (Datatypes.S i <= k -> det_spec M1 (Datatypes.S i) = det_spec M2 (Datatypes.S i))%nat.
Proof.
  induction i as [|i IH]; intros Hi.
  - split.
    + cbn [det_spec]. unfold diag. apply agree. lia.
    + intros H1. cbn [det_spec]. unfold diag, subdiag, superdiag.
      rewrite !agree by lia. reflexivity.
  - destruct (IH ltac:(lia)) as [I0 I1]. split; [apply I1; lia|].
    intros H2.
    change (det_spec M1 (Datatypes.S (Datatypes.S i)))
      with (sub (mul (diag M1 (Datatypes.S (Datatypes.S i))) (det_spec M1 (Datatypes.S i)))
                (mul (mul (subdiag M1 (Datatypes.S (Datatypes.S i)))
                          (superdiag M1 (Datatypes.S i)))
                     (det_spec M1 i))).
    change (det_spec M2 (Datatypes.S (Datatypes.S i)))
      with (sub (mul (diag M2 (Datatypes.S (Datatypes.S i))) (det_spec M2 (Datatypes.S i)))
                (mul (mul (subdiag M2 (Datatypes.S (Datatypes.S i)))
                          (superdiag M2 (Datatypes.S i)))
                     (det_spec M2 i))).
    rewrite I0, (I1 ltac:(lia)). unfold diag, subdiag, superdiag.
    rewrite !agree by lia. reflexivity.
Qed.
End Prefix.

(** X11. The recursion of [detF] runs over the leading principal
    submatrices: for [1 <= k <= n], [New] accepts the first [3k - 2]
    coefficients of a well-formed matrix as a [k x k] matrix, and the
    [Determinant] of that matrix is what [detF] returns at index [k - 1] on
    the whole coefficient sequence. *)
Theorem Determinant_of_leading_submatrix (M : Matrix float) (k : Z) :
  well_formed M -> 1 <= k <= n M ->
  let d := firstn (Z.to_nat (3 * k - 2)) (m M) in
  New d = Ok {| n := k; m := d |}
  /\ (forall fuel : nat, (Z.to_nat k <= fuel)%nat ->
      exists v, Determinant fuel {| n := k; m := d |} = Some (Ok v)
                /\ detF fuel (m M) (k - 1) = Some (Ok v)).
Proof.
  intros WF Hk d. destruct (well_formed_rows WF) as (N & HN & Hm & H1).
  assert (Hd : List.length d = (3 * Z.to_nat k - 2)%nat).
  { unfold d. rewrite firstn_length_le by lia. lia. }
  assert (WFk : well_formed {| n := k; m := d |}).
  { split; cbn [n m]; [lia | unfold len; lia]. }
  split.
  - apply (well_formed_New (M:={| n := k; m := d |}) WFk).
  - intros fuel Hf. exists (det_spec M (Z.to_nat k - 1)). split.
    + unfold Determinant. cbn [n m].
      replace (k - 1) with (Z.of_nat (Z.to_nat k - 1)) by lia.
      rewrite (detF_rows {| n := k; m := d |} (N:=Z.to_nat k)) by (cbn [m]; lia).
      do 2 f_equal.
      apply (det_spec_prefix {| n := k; m := d |} M (Z.to_nat k - 1)); [|lia].
      intros j Hj. cbn [m]. unfold d. rewrite nth_firstn.
      destruct (Nat.ltb_spec j (Z.to_nat (3 * k - 2))) as [_|Hge]; [reflexivity | lia].
    + replace (k - 1) with (Z.of_nat (Z.to_nat k - 1)) by lia.
      apply (detF_rows M Hm); lia.
Qed.

Lemma Determinant_of_leading_submatrix_witness :
  New (firstn (Z.to_nat (3 * 2 - 2)) test1_coefficients)
  = Ok {| n := 2; m := firstn (Z.to_nat (3 * 2 - 2)) test1_coefficients |}.
Proof.
  apply (Determinant_of_leading_submatrix {| n := 4; m := test1_coefficients |} 2).
  - split; [cbn; lia | reflexivity].
  - cbn; lia.
Defined.
